(** * OpenDeep: the [Prototype] model container

    A shallow embedding of [opendeep/models/container.py].  A [Prototype]
    holds the list [self.models] and, once [predict] has compiled it, the
    attribute [self.f_predict].  The models it holds are opaque objects
    that answer [get_inputs], [get_outputs], [get_updates], ... ; the
    Theano variables they hand out are modelled as far as the container
    inspects them ([isinstance], [owner], iteration). *)

From stdpp Require Import base option list gmap strings.

Open Scope Z_scope.

(** ** Python values seen by the container *)

(** Exceptions that the modelled code can raise. *)
Inductive PyErr : Type :=
  | TypeError
  | ValueError
  | IndexError
  | EngineError (msg : string).

(** Outcome of a Python call: a value or a raised exception. *)
Inductive Result (A : Type) : Type :=
  | Ok (a : A)
  | Raise (e : PyErr).
Arguments Ok {A} a.
Arguments Raise {A} e.

(** Sequencing: an exception raised by the first call propagates. *)
#[global] Instance Result_bind : MBind Result := λ A B k r,
  match r with
  | Ok a => k a
  | Raise e => Raise e
  end.

(** Operations that can own a Theano variable.  Only the ones that
    [theano.tensor.get_vector_length] looks at are told apart. *)
Inductive Op : Type :=
  | Subtensor (idx : nat)
  | MakeVector
  | Shape
  | Elemwise (name : string).

(** A Python object handed to the container.  [TensorVariable] is an
    instance of [theano.tensor.TensorVariable]: it has a type, of which
    the broadcastable pattern (one flag per dimension) is kept, and an
    [owner], which is [None] for a variable that no operation produced.
    [PyObject] is any other object (a constant, a shared variable, ...). *)
#[local] Set Warnings "-register-all".
Inductive PyObj : Type :=
  | TensorVariable (name : string) (broadcastable : list bool)
                   (owner : option (Op * list PyObj))
  | PyObject (name : string).

#[local] Set Warnings "register-all".

(** Identity of a shared variable (a trainable parameter, a piece of
    state).  Theano variables compare and hash by identity. *)
Abbreviation SharedVar := nat (only parsing).

(** A reference to a dict object on the heap. *)
Abbreviation loc := nat (only parsing).

(** A dict of update rules: shared variable to new-value expression.
    The order in which an ordered dict lists its keys is not kept. *)
Abbreviation Dict := (gmap SharedVar PyObj) (only parsing).

(** The dict objects of the program, by reference. *)
Abbreviation Heap := (gmap loc Dict) (only parsing).

(** Records handed to the module's logger. *)
Inductive LogRecord : Type :=
  | LogWarning (msg : string)
  | LogInfo (msg : string).

(** The part of the interpreter state that the container shares with the
    rest of the program: the dict objects that the units hand out, and the
    log. *)
Record World : Type := mkWorld {
  heap : Heap;
  logged : list LogRecord;
}.

Definition log_warning (msg : string) (w : World) : World :=
  {| heap := heap w; logged := logged w ++ [LogWarning msg] |}.

Definition log_info (msg : string) (w : World) : World :=
  {| heap := heap w; logged := logged w ++ [LogInfo msg] |}.

Definition set_heap (h : Heap) (w : World) : World :=
  {| heap := h; logged := logged w |}.

(** ** Model units *)

(** What a unit answers to the queries the container makes; a unit is
    taken to answer without raising and without effects of its own.  The
    update rules are a reference to a dict (or [None]). *)
Record Model : Type := mkModel {
  m_get_inputs : list PyObj;
  m_get_outputs : PyObj;
  m_get_updates : option loc;
  m_get_train_cost : PyObj;
  m_get_params : list SharedVar;
}.

(** ** Theano's iteration over a tensor variable *)

(** [theano.tensor.get_vector_length]: the length of a symbolic vector
    when the graph tells it; [TypeError] for anything that is not a
    vector, [ValueError] for a vector of unknown length. *)
Definition get_vector_length (v : PyObj) : Result nat :=
  match v with
  | TensorVariable _ [b] owner =>
      if b then Ok 1%nat
      else match owner with
           | Some (MakeVector, ins) => Ok (length ins)
           | Some (Shape, TensorVariable _ bc _ :: _) => Ok (length bc)
           | _ => Raise ValueError
           end
  | _ => Raise TypeError
  end.

(** [v[i]]: a scalar variable owned by a [Subtensor] operation on [v]. *)
Definition subtensor (v : PyObj) (i : nat) : PyObj :=
  TensorVariable "" [] (Some (Subtensor i, [v])).

(** [TensorVariable.__iter__], run to the end: yields [v[0]], ...,
    [v[n-1]] for [n = get_vector_length v]. *)
Definition tensor_iter (v : PyObj) : Result (list PyObj) :=
  n ← get_vector_length v; Ok (subtensor v <$> seq 0 n).

(** [isinstance(input, T.TensorVariable) and hasattr(input, 'owner')] *)
Definition is_tensor_variable (input : PyObj) : bool :=
  match input with
  | TensorVariable _ _ _ => true
  | PyObject _ => false
  end.

(** [input.owner is None] *)
Definition owner_is_None (input : PyObj) : bool :=
  match input with
  | TensorVariable _ _ None => true
  | _ => false
  end.

(** A dict is true when it is not empty; [None] is false. *)
Definition truthy (h : Heap) (d : option loc) : bool :=
  match d with
  | Some l => bool_decide (h !!! l ≠ (∅ : Dict))
  | None => false
  end.

(** [updates.update(current_updates)] on the heap: the entries of
    [current_updates] are written into the object [updates]. *)
Definition dict_update (h : Heap) (updates current_updates : option loc)
    : Heap :=
  match updates, current_updates with
  | Some l, Some lc => <[l := (h !!! lc) ∪ (h !!! l)]> h
  | _, _ => h
  end.

(** ** The container object *)

Section Container.

(** The engine behind [opendeep.function]: compiled functions [Fn], the
    values they take and return, and the engine's own state (the values
    of the shared variables). *)
Context {Fn Value Eng : Type}.

(** What [function(inputs=..., outputs=..., updates=..., name="f_predict")]
    is given; of [updates] the dict's entries at that moment. *)
Record FunctionArgs : Type := mkFunctionArgs {
  fa_inputs : list PyObj;
  fa_outputs : option PyObj;
  fa_updates : option Dict;
}.

Variable function : FunctionArgs → Eng → Result Fn * Eng.
Variable call : Fn → Value → Eng → Result Value * Eng.

Record Prototype : Type := mkPrototype {
  models : list Model;
  f_predict : option Fn;
}.

(** [__init__]: an empty list of models, no [f_predict] attribute. *)
Definition init : Prototype :=
  {| models := []; f_predict := None |}.

(** Python's [l[item]] for an integer [item]: a negative index counts
    from the end, anything outside [-len l <= item < len l] raises
    [IndexError]. *)
Definition list_getitem {A} (l : list A) (item : Z) : Result A :=
  let i := if decide (item < 0) then item + Z.of_nat (length l) else item in
  if decide (i < 0) then Raise IndexError
  else match l !! Z.to_nat i with
       | Some a => Ok a
       | None => Raise IndexError
       end.

(** [__getitem__]: [return self.models[item]]. *)
Definition getitem (self : Prototype) (item : Z) : Result Model :=
  list_getitem (models self) item.

(** [__iter__]: the models yielded by the generator, in order. *)
Definition iter (self : Prototype) : list Model :=
  models self.

(** [add]: [self.models.append(model)]. *)
Definition add (self : Prototype) (model : Model) : Prototype :=
  {| models := models self ++ [model]; f_predict := f_predict self |}.

(** The inner loop of [get_inputs], over one model's inputs. *)
Fixpoint get_inputs_model (inputs : list PyObj) (model_inputs : list PyObj)
    : Result (list PyObj) :=
  match model_inputs with
  | [] => Ok inputs
  | input :: rest =>
      if is_tensor_variable input then
        if owner_is_None input then
          (* inputs.extend(input) *)
          elems ← tensor_iter input;
          get_inputs_model (inputs ++ elems) rest
        else get_inputs_model inputs rest
      else get_inputs_model inputs rest
  end.

(** The outer loop of [get_inputs], over the models. *)
Fixpoint get_inputs_loop (inputs : list PyObj) (ms : list Model)
    : Result (list PyObj) :=
  match ms with
  | [] => Ok inputs
  | model :: rest =>
      inputs' ← get_inputs_model inputs (m_get_inputs model);
      get_inputs_loop inputs' rest
  end.

Definition get_inputs (self : Prototype) : Result (list PyObj) :=
  get_inputs_loop [] (models self).

(** [get_outputs]: the last model's outputs, or a warning and [None]. *)
Definition get_outputs (self : Prototype) (w : World)
    : Result (option PyObj) * World :=
  if decide (0 < length (models self))%nat then
    (model ← list_getitem (models self) (-1); Ok (Some (m_get_outputs model)), w)
  else
    (Ok None,
     log_warning "This container doesn't have any models! So no outputs to get..." w).

(** The loop of [get_updates]; [updates] is the local variable. *)
Fixpoint get_updates_loop (updates : option loc) (ms : list Model) (h : Heap)
    : option loc * Heap :=
  match ms with
  | [] => (updates, h)
  | model :: rest =>
      let current_updates := m_get_updates model in
      if truthy h updates && truthy h current_updates then
        get_updates_loop updates rest (dict_update h updates current_updates)
      else if truthy h current_updates then
        get_updates_loop current_updates rest h
      else get_updates_loop updates rest h
  end.

Definition get_updates (self : Prototype) (w : World) : option loc * World :=
  let '(updates, h) := get_updates_loop None (models self) (heap w) in
  (updates, set_heap h w).

(** [get_train_cost]: the last model's cost, or a warning and [None]. *)
Definition get_train_cost (self : Prototype) (w : World)
    : Result (option PyObj) * World :=
  if decide (0 < length (models self))%nat then
    (model ← list_getitem (models self) (-1); Ok (Some (m_get_train_cost model)), w)
  else
    (Ok None,
     log_warning "This container doesn't have any models! So no outputs to get..." w).

(** The inner loop of [get_params], over one model's parameters. *)
Fixpoint get_params_model (params : list SharedVar) (model_params : list SharedVar)
    : list SharedVar :=
  match model_params with
  | [] => params
  | param :: rest =>
      if decide (param ∈ params) then get_params_model params rest
      else get_params_model (params ++ [param]) rest
  end.

Definition get_params (self : Prototype) : list SharedVar :=
  foldl (λ params model, get_params_model params (m_get_params model))
        [] (models self).

(** The state that [predict] runs in: the world, the engine, and the
    calls made to [function] so far. *)
Record Runtime : Type := mkRuntime {
  world : World;
  engine : Eng;
  compiled : list FunctionArgs;
}.

(** [predict].  The time measurements only feed the second log record
    and are left out. *)
Definition predict (self : Prototype) (input : Value) (rt : Runtime)
    : Result Value * Prototype * Runtime :=
  match f_predict self with
  | Some f =>
      let '(r, e) := call f input (engine rt) in
      (r, self, {| world := world rt; engine := e; compiled := compiled rt |})
  | None =>
      match get_inputs self with
      | Raise e => (Raise e, self, rt)
      | Ok inputs =>
          match get_outputs self (world rt) with
          | (Raise e, w1) =>
              (Raise e, self,
               {| world := w1; engine := engine rt; compiled := compiled rt |})
          | (Ok outputs, w1) =>
              let '(updates, w2) := get_updates self w1 in
              let args := {| fa_inputs := inputs; fa_outputs := outputs;
                             fa_updates := (λ l, heap w2 !!! l) <$> updates |} in
              let w3 := log_info "Compiling f_predict..." w2 in
              match function args (engine rt) with
              | (Raise e, e1) =>
                  (Raise e, self,
                   {| world := w3; engine := e1;
                      compiled := compiled rt ++ [args] |})
              | (Ok f, e1) =>
                  let self' := {| models := models self; f_predict := Some f |} in
                  let w4 := log_info "Compilation done! Took " w3 in
                  let '(r, e2) := call f input e1 in
                  (r, self',
                   {| world := w4; engine := e2;
                      compiled := compiled rt ++ [args] |})
              end
          end
      end
  end.

(** A caller's use of the container over time: [add] and [predict]
    calls, in order. *)
Inductive Call : Type :=
  | CallAdd (model : Model)
  | CallPredict (input : Value).

Definition step (st : Prototype * Runtime) (c : Call) : Prototype * Runtime :=
  match c with
  | CallAdd model => (add st.1 model, st.2)
  | CallPredict input =>
      let '(_, self, rt) := predict st.1 input st.2 in (self, rt)
  end.

Definition run (st : Prototype * Runtime) (cs : list Call) : Prototype * Runtime :=
  foldl step st cs.

End Container.

Arguments Prototype : clear implicits.
Arguments Runtime : clear implicits.
Arguments Call : clear implicits.

(** ** The aggregates over all units *)

Section Aggregates.

(** The decay functions and the scaling factors are only passed along;
    their types are left open.  What a unit answers to
    [get_decay_params()] and [get_lr_scalers()] is given as a function
    of the unit. *)
Context {Fn DecayFunction Scale : Type}.
Variable m_get_decay_params : Model → list DecayFunction.
Variable m_get_lr_scalers : Model → gmap SharedVar Scale.

(** [get_decay_params]: [decay_params.extend(model.get_decay_params())]
    for every model. *)
Definition get_decay_params (self : Prototype Fn) : list DecayFunction :=
  foldl (λ decay_params model, decay_params ++ m_get_decay_params model)
        [] (models self).

(** [get_lr_scalers]: [lr_scalers.update(model.get_lr_scalers())] for
    every model, on a new dict. *)
Definition get_lr_scalers (self : Prototype Fn) : gmap SharedVar Scale :=
  foldl (λ lr_scalers model, m_get_lr_scalers model ∪ lr_scalers)
        ∅ (models self).

End Aggregates.

(** The units that the [add] calls of a sequence of calls add. *)
Definition added_models {Value : Type} (cs : list (Call Value)) : list Model :=
  omap (λ c, match c with CallAdd model => Some model | CallPredict _ => None end) cs.

(** A symbolic vector whose one dimension is broadcastable, hence of
    length one. *)
Definition length_one_vector (v : PyObj) : bool :=
  match v with
  | TensorVariable _ [true] _ => true
  | _ => false
  end.

(** ** Reference definitions, in the words of the specification *)

(** The root inputs of a pipeline: of every unit, in order, the inputs
    that are tensor variables without an owner. *)
Definition root_inputs (ms : list Model) : list PyObj :=
  ms ≫= λ model,
    filter (λ input, is_tensor_variable input && owner_is_None input = true)
           (m_get_inputs model).

(** The update mapping of a unit, read in heap [h]; a unit without
    updates has none. *)
Definition updates_of (h : Heap) (model : Model) : Dict :=
  match m_get_updates model with
  | Some l => h !!! l
  | None => ∅
  end.

(** The key-wise merge of the units' update mappings in pipeline order:
    every unit's entries are laid over what the earlier units gave. *)
Definition merged_updates (h : Heap) (ms : list Model) : Dict :=
  foldl (λ acc model, updates_of h model ∪ acc) ∅ ms.

(** What one more unit leaves in the object [l] that [updates] refers to,
    when [l] holds [acc] and the other dicts are as in [h]: the unit's
    entries are written over [acc]. *)
Definition merge_step (h : Heap) (l : loc) (acc : Dict) (model : Model)
    : Dict :=
  match m_get_updates model with
  | Some lc => if decide (lc = l) then acc else (h !!! lc) ∪ acc
  | None => acc
  end.

(** ** A small pipeline and a trivial engine, for concrete runs *)

Definition var_x : PyObj := TensorVariable "x" [false; false] None.
Definition var_h : PyObj :=
  TensorVariable "h" [false; false] (Some (Elemwise "sigmoid", [var_x])).
Definition var_y : PyObj :=
  TensorVariable "y" [false; false] (Some (Elemwise "softmax", [var_h])).

(** U1 reads the leaf [x] and produces [h]; U2 is wired to [h]. *)
Definition unit1 : Model :=
  {| m_get_inputs := [var_x]; m_get_outputs := var_h; m_get_updates := Some 1%nat;
     m_get_train_cost := PyObject "cost1"; m_get_params := [10; 11]%nat |}.
Definition unit2 : Model :=
  {| m_get_inputs := [var_h]; m_get_outputs := var_y; m_get_updates := Some 2%nat;
     m_get_train_cost := PyObject "cost2"; m_get_params := [11; 12]%nat |}.

(** A unit wired to [h] only, without updates. *)
Definition unit3 : Model :=
  {| m_get_inputs := [var_h]; m_get_outputs := var_y; m_get_updates := None;
     m_get_train_cost := PyObject "cost3"; m_get_params := [12; 13]%nat |}.

(** Two dict objects: [{a: x}] at 1 and [{a: y}] at 2, with [a = 7]. *)
Definition world0 : World :=
  {| heap := <[1%nat := {[ 7%nat := var_x ]}]> (<[2%nat := {[ 7%nat := var_y ]}]> ∅);
     logged := [] |}.

(** An engine that compiles anything; the compiled function is
    identified with what it was compiled from and returns its input. *)
Definition toy_function (args : FunctionArgs) (e : unit) : Result FunctionArgs * unit :=
  (Ok args, e).
Definition toy_call (f : FunctionArgs) (input : nat) (e : unit) : Result nat * unit :=
  (Ok input, e).

(** A unit that reads no symbolic input: its output [s] and its update
    rule are computed from the shared variable [W] alone. *)
Definition var_s : PyObj :=
  TensorVariable "s" [false] (Some (Elemwise "tanh", [PyObject "W"])).
Definition unit4 : Model :=
  {| m_get_inputs := [PyObject "W"]; m_get_outputs := var_s;
     m_get_updates := Some 3%nat;
     m_get_train_cost := PyObject "cost4"; m_get_params := [14]%nat |}.

(** The dict object of [unit4]: [{b: s}] at 3, with [b = 8]. *)
Definition world1 : World :=
  {| heap := {[ 3%nat := {[ 8%nat := var_s ]} ]}; logged := [] |}.

(** Calling a function compiled without inputs with one argument raises
    [TypeError]. *)
Definition arity_call (f : FunctionArgs) (input : nat) (e : unit) : Result nat * unit :=
  match fa_inputs f with
  | [] => (Raise TypeError, e)
  | _ :: _ => (Ok input, e)
  end.

(** An engine whose first compilation fails and whose later ones
    succeed; its state counts the compilations asked for. *)
Definition flaky_function (args : FunctionArgs) (n : nat) : Result FunctionArgs * nat :=
  match n with
  | O => (Raise (EngineError "compilation failed"), S n)
  | S _ => (Ok args, S n)
  end.
Definition flaky_call (f : FunctionArgs) (input : nat) (n : nat) : Result nat * nat :=
  (Ok input, n).

(** Answers of the example units to [get_decay_params()] and
    [get_lr_scalers()]: one decay function per parameter, named by it,
    and the scale 2 for every parameter but the first. *)
Definition example_decay_params (m : Model) : list nat :=
  m_get_params m.
Definition example_lr_scalers (m : Model) : gmap nat nat :=
  list_to_map ((λ p, (p, 2%nat)) <$> tail (m_get_params m)).

(** * Properties *)

#[local] Set Warnings "-clear-no-such-hyp".

(** ** Positional access *)

Section Indexing.
Context {Fn : Type}.
Implicit Types (self : Prototype Fn) (units : list Model).

Lemma list_getitem_nonneg {A} (l : list A) (item : Z) (a : A) :
  0 ≤ item → l !! Z.to_nat item = Some a → list_getitem l item = Ok a.
Proof.
  intros Hpos Hl. unfold list_getitem. cbv zeta.
  repeat case_decide; try lia. by rewrite Hl.
Qed.

Lemma list_getitem_neg {A} (l : list A) (item : Z) (a : A) :
  item < 0 → 0 ≤ item + Z.of_nat (length l) →
  l !! Z.to_nat (item + Z.of_nat (length l)) = Some a →
  list_getitem l item = Ok a.
Proof.
  intros Hneg Hlow Hl. unfold list_getitem. cbv zeta.
  repeat case_decide; try lia. by rewrite Hl.
Qed.

Lemma list_getitem_out_of_range {A} (l : list A) (item : Z) :
  item < - Z.of_nat (length l) ∨ Z.of_nat (length l) ≤ item →
  list_getitem l item = Raise IndexError.
Proof.
  intros Hout. unfold list_getitem. cbv zeta.
  repeat case_decide; try done; try lia.
  by rewrite (lookup_ge_None_2 l) by lia.
Qed.

Lemma list_getitem_last {A} (l : list A) (a : A) :
  list_getitem (l ++ [a]) (-1) = Ok a.
Proof.
  apply list_getitem_neg; rewrite ?length_app; simpl; [lia..|].
  replace (Z.to_nat (-1 + Z.of_nat (length l + 1))) with (length l + 0)%nat by lia.
  by rewrite lookup_app_r, Nat.add_0_r, Nat.sub_diag by lia.
Qed.

Lemma models_foldl_add self units :
  models (foldl add self units) = models self ++ units.
Proof.
  revert self. induction units as [|u units IH]; intros self; simpl.
  - by rewrite app_nil_r.
  - rewrite IH. simpl. by rewrite <-app_assoc.
Qed.

(** C7: after any sequence of [add] calls on a new container, [get(i)]
    is the i-th unit added, for every position [i] below the number of
    units, and iteration yields the units in the order they were added. *)
Theorem add_then_getitem_iter units :
  let self := foldl add (@init Fn) units in
  (∀ i : nat, (i < length units)%nat →
     ∃ u, units !! i = Some u ∧ getitem self (Z.of_nat i) = Ok u) ∧
  iter self = units.
Proof.
  intros self.
  assert (models self = units) as Hm.
  { unfold self. by rewrite models_foldl_add. }
  split; [|done].
  intros i Hi. destruct (lookup_lt_is_Some_2 units i Hi) as [u Hu].
  exists u. split; [done|].
  unfold getitem. rewrite Hm.
  apply list_getitem_nonneg; [lia|]. by rewrite Nat2Z.id.
Qed.

(** C8, as amended: [get(index)] returns the unit at [index] for
    [0 <= index < n], the unit at [n + index] for [-n <= index < 0], and
    raises [IndexError] for every other integer. *)
Theorem getitem_spec self (item : Z) :
  let n := Z.of_nat (length (models self)) in
  (0 ≤ item < n →
     ∃ u, models self !! Z.to_nat item = Some u ∧ getitem self item = Ok u) ∧
  (- n ≤ item < 0 →
     ∃ u, models self !! Z.to_nat (n + item) = Some u ∧ getitem self item = Ok u) ∧
  (item < - n ∨ n ≤ item → getitem self item = Raise IndexError).
Proof.
  intros n. split; [|split].
  - intros Hi.
    destruct (lookup_lt_is_Some_2 (models self) (Z.to_nat item)) as [u Hu]; [lia|].
    exists u. split; [done|]. apply list_getitem_nonneg; [lia|done].
  - intros Hi.
    destruct (lookup_lt_is_Some_2 (models self) (Z.to_nat (n + item))) as [u Hu];
      [lia|].
    exists u. split; [done|].
    apply list_getitem_neg; [lia|lia|]. by rewrite Z.add_comm.
  - apply list_getitem_out_of_range.
Qed.

(** C10: with [n >= 1] units and [1 <= k <= n], [get(-k)] raises nothing
    and returns the unit at position [n - k]; [get(-1)] is the last unit,
    and right after [add(u)] it is [u]. *)
Theorem getitem_negative self (k : Z) :
  let n := Z.of_nat (length (models self)) in
  1 ≤ n → 1 ≤ k ≤ n →
  (∃ u, models self !! Z.to_nat (n - k) = Some u ∧ getitem self (- k) = Ok u ∧
        (k = 1 → last (models self) = Some u)) ∧
  (∀ u, getitem (add self u) (-1) = Ok u).
Proof.
  intros n Hn Hk. split.
  - destruct (lookup_lt_is_Some_2 (models self) (Z.to_nat (n - k))) as [u Hu];
      [lia|].
    exists u. split; [done|]. split.
    + apply list_getitem_neg; [lia|lia|].
      by replace (- k + Z.of_nat (length (models self))) with (n - k) by lia.
    + intros ->. rewrite last_lookup. rewrite <-Hu. f_equal. lia.
  - intros u. apply list_getitem_last.
Qed.

End Indexing.

(** C8, as stated, fails: [-1] is not a position of a one-unit pipeline,
    yet [get(-1)] raises nothing and returns the unit. *)
Lemma getitem_out_of_range_counterexample :
  let self := add (@init unit) unit1 in
  ¬ (0 ≤ -1 < Z.of_nat (length (models self))) ∧
  getitem self (-1) = Ok unit1 ∧
  getitem self (-1) ≠ Raise IndexError.
Proof. split; [lia|]. split; [reflexivity|discriminate]. Qed.

Lemma add_then_getitem_iter_witness :
  (∃ u, [unit1; unit2] !! 1%nat = Some u ∧
        getitem (foldl add (@init unit) [unit1; unit2]) 1 = Ok u) ∧
  iter (foldl add (@init unit) [unit1; unit2]) = [unit1; unit2].
Proof.
  split.
  - apply (proj1 (add_then_getitem_iter (Fn:=unit) [unit1; unit2]) 1%nat).
    simpl. lia.
  - apply (proj2 (add_then_getitem_iter (Fn:=unit) [unit1; unit2])).
Defined.

Lemma getitem_spec_witness :
  let self := add (add (@init unit) unit1) unit2 in
  (∃ u, models self !! Z.to_nat 1 = Some u ∧ getitem self 1 = Ok u) ∧
  (∃ u, models self !! Z.to_nat (2 + -2) = Some u ∧ getitem self (-2) = Ok u) ∧
  getitem self 2 = Raise IndexError ∧
  getitem self (-3) = Raise IndexError.
Proof.
  intros self.
  split; [|split; [|split]].
  - apply (proj1 (getitem_spec self 1)). simpl. lia.
  - apply (proj1 (proj2 (getitem_spec self (-2)))). simpl. lia.
  - apply (proj2 (proj2 (getitem_spec self 2))). simpl. lia.
  - apply (proj2 (proj2 (getitem_spec self (-3)))). simpl. lia.
Defined.

Lemma getitem_negative_witness :
  let self := add (add (@init unit) unit1) unit2 in
  (∃ u, models self !! Z.to_nat (2 - 1) = Some u ∧ getitem self (- 1) = Ok u ∧
        (1 = 1 → last (models self) = Some u)) ∧
  (∀ u, getitem (add self u) (-1) = Ok u).
Proof.
  intros self. apply (getitem_negative self 1); simpl; lia.
Defined.

(** ** Outputs and cost of the pipeline *)

Section Outputs.
Context {Fn : Type}.
Implicit Types (self : Prototype Fn) (w : World).

Lemma models_nonempty_last self :
  models self ≠ [] →
  ∃ u, last (models self) = Some u ∧
       getitem self (Z.of_nat (length (models self)) - 1) = Ok u ∧
       list_getitem (models self) (-1) = Ok u.
Proof.
  intros Hne.
  destruct (models self) as [|m ms] eqn:Hm using rev_ind; [done|].
  clear IHms. exists m. rewrite last_snoc. split; [done|].
  unfold getitem. rewrite Hm. split; [|apply list_getitem_last].
  apply list_getitem_nonneg; rewrite length_app; simpl; [lia|].
  replace (Z.to_nat (Z.of_nat (length ms + 1) - 1)) with (length ms + 0)%nat by lia.
  by rewrite lookup_app_r, Nat.add_0_r, Nat.sub_diag by lia.
Qed.


(** C6: on a pipeline without units, [get_outputs()] and
    [get_train_cost()] raise nothing and return [None]; each leaves one
    warning in the log and the rest of the world as it was. *)
Theorem empty_pipeline_warns self w :
  models self = [] →
  (∃ msg, get_outputs self w = (Ok None, log_warning msg w)) ∧
  (∃ msg, get_train_cost self w = (Ok None, log_warning msg w)) ∧
  (∀ msg, logged (log_warning msg w) = logged w ++ [LogWarning msg] ∧
          heap (log_warning msg w) = heap w).
Proof.
  intros Hm. unfold get_outputs, get_train_cost. rewrite Hm. simpl.
  split; [|split]; eauto.
Qed.

End Outputs.


Lemma empty_pipeline_warns_witness :
  (∃ msg, get_outputs (@init unit) world0 = (Ok None, log_warning msg world0)) ∧
  (∃ msg, get_train_cost (@init unit) world0 = (Ok None, log_warning msg world0)).
Proof.
  split.
  - apply (proj1 (empty_pipeline_warns (@init unit) world0 eq_refl)).
  - apply (proj1 (proj2 (empty_pipeline_warns (@init unit) world0 eq_refl))).
Defined.

(** ** Trainable parameters *)

Section Params.
Context {Fn : Type}.
Implicit Types (self : Prototype Fn) (params ps : list nat).

Lemma get_params_model_app params ps1 ps2 :
  get_params_model params (ps1 ++ ps2)
  = get_params_model (get_params_model params ps1) ps2.
Proof.
  revert params. induction ps1 as [|p ps1 IH]; intros params; simpl; [done|].
  case_decide; apply IH.
Qed.

Lemma get_params_model_prefix params ps :
  ∃ new, get_params_model params ps = params ++ new.
Proof.
  revert params. induction ps as [|p ps IH]; intros params; simpl.
  - exists []. by rewrite app_nil_r.
  - case_decide; [apply IH|].
    destruct (IH (params ++ [p])) as [new ->].
    exists (p :: new). by rewrite <-app_assoc.
Qed.

Lemma get_params_model_elem_of params ps (x : nat) :
  x ∈ get_params_model params ps ↔ x ∈ params ∨ x ∈ ps.
Proof.
  revert params. induction ps as [|p ps IH]; intros params; simpl.
  - set_solver.
  - case_decide; rewrite IH; set_solver.
Qed.

Lemma get_params_model_NoDup params ps :
  NoDup params → NoDup (get_params_model params ps).
Proof.
  revert params. induction ps as [|p ps IH]; intros params Hnd; simpl; [done|].
  case_decide; apply IH; [done|].
  apply NoDup_app. split; [done|]. split; [set_solver|]. apply NoDup_singleton.
Qed.

(** The two nested loops walk the concatenation of the units' lists. *)
Lemma get_params_concat self :
  get_params self = get_params_model [] (concat (m_get_params <$> models self)).
Proof.
  unfold get_params. generalize (@nil nat) as params.
  induction (models self) as [|m ms IH]; intros params; simpl; [done|].
  by rewrite IH, get_params_model_app.
Qed.

(** A parameter that first occurs after the prefix [ps1] lands right
    after what the prefix contributed. *)
Lemma get_params_model_first ps1 (x : nat) ps2 :
  x ∉ ps1 →
  ∃ rest, get_params_model [] (ps1 ++ x :: ps2)
          = get_params_model [] ps1 ++ x :: rest.
Proof.
  intros Hx. rewrite get_params_model_app. simpl.
  rewrite decide_False.
  - destruct (get_params_model_prefix (get_params_model [] ps1 ++ [x]) ps2)
      as [rest ->].
    exists rest. by rewrite <-app_assoc.
  - rewrite get_params_model_elem_of. set_solver.
Qed.

(** C4: [get_params()] holds no parameter twice, holds exactly the
    parameters of the concatenated unit lists, and lists them in the
    order of their first occurrences there. *)
Theorem get_params_dedup_first_seen self :
  let all := concat (m_get_params <$> models self) in
  NoDup (get_params self) ∧
  (∀ x, x ∈ get_params self ↔ x ∈ all) ∧
  (∀ (i j : nat) x y,
     all !! i = Some x → x ∉ take i all →
     all !! j = Some y → y ∉ take j all →
     (i < j)%nat →
     ∃ i' j' : nat, get_params self !! i' = Some x ∧
                    get_params self !! j' = Some y ∧ (i' < j')%nat).
Proof.
  intros all. rewrite get_params_concat. fold all.
  split; [|split].
  - apply get_params_model_NoDup, NoDup_nil_2.
  - intros x. rewrite get_params_model_elem_of. set_solver.
  - intros i j x y Hi Hxi Hj Hyj Hij.
    pose proof (take_drop_middle all i x Hi) as Hsi.
    pose proof (take_drop_middle all j y Hj) as Hsj.
    destruct (get_params_model_first (take i all) x (drop (S i) all) Hxi)
      as [ri Hri].
    destruct (get_params_model_first (take j all) y (drop (S j) all) Hyj)
      as [rj Hrj].
    rewrite Hsi in Hri. rewrite Hsj in Hrj.
    assert (∃ rest, get_params_model [] (take j all)
                    = get_params_model [] (take i all) ++ x :: rest)
      as [rij Hrij].
    { assert (take j all = take i all ++ x :: drop (S i) (take j all)) as ->.
      { rewrite <-(take_drop_middle (take j all) i x) at 1.
        - by rewrite take_take, Nat.min_l by lia.
        - rewrite lookup_take_lt by lia. done. }
      by apply get_params_model_first. }
    exists (length (get_params_model [] (take i all))),
           (length (get_params_model [] (take j all))).
    split; [|split].
    + rewrite Hri. by rewrite list_lookup_middle.
    + rewrite Hrj. by rewrite list_lookup_middle.
    + rewrite Hrij, length_app. simpl. lia.
Qed.

End Params.

(** The units [unit1] and [unit2] share parameter 11. *)
Lemma get_params_dedup_first_seen_witness :
  get_params (add (add (@init unit) unit1) unit2) = [10; 11; 12]%nat ∧
  ∃ i' j' : nat,
    get_params (add (add (@init unit) unit1) unit2) !! i' = Some 11%nat ∧
    get_params (add (add (@init unit) unit1) unit2) !! j' = Some 12%nat ∧
    (i' < j')%nat.
Proof.
  split; [reflexivity|].
  apply (proj2 (proj2 (get_params_dedup_first_seen
                         (add (add (@init unit) unit1) unit2))) 1%nat 3%nat).
  - reflexivity.
  - simpl. rewrite list_elem_of_singleton. discriminate.
  - reflexivity.
  - simpl. intros H; repeat (apply elem_of_cons in H as [H|H]; [discriminate|]).
    by apply elem_of_nil in H.
  - lia.
Defined.

(** ** Inputs of the pipeline *)

Section Inputs.
Context {Fn : Type}.
Implicit Types (self : Prototype Fn) (inputs : list PyObj).

(** Iterating a tensor variable yields subtensors of it, never the
    variable: every element has an owner. *)
Lemma tensor_iter_owned (v : PyObj) (elems : list PyObj) :
  tensor_iter v = Ok elems → Forall (λ e, owner_is_None e = false) elems.
Proof.
  unfold tensor_iter. destruct (get_vector_length v) as [n|]; simpl; [|done].
  intros [= <-]. apply Forall_fmap, Forall_forall. done.
Qed.

Lemma get_inputs_model_owned inputs model_inputs result :
  Forall (λ e, owner_is_None e = false) inputs →
  get_inputs_model inputs model_inputs = Ok result →
  Forall (λ e, owner_is_None e = false) result.
Proof.
  revert inputs. induction model_inputs as [|input rest IH]; intros inputs Hin; simpl.
  - by intros [= <-].
  - destruct (is_tensor_variable input); [|by apply IH].
    destruct (owner_is_None input); [|by apply IH].
    destruct (tensor_iter input) as [elems|] eqn:Hit; simpl; [|done].
    apply IH, Forall_app. split; [done|]. by eapply tensor_iter_owned.
Qed.

(** Whatever [get_inputs] returns, no element of it is a root input. *)
Lemma get_inputs_owned self result :
  get_inputs self = Ok result → Forall (λ e, owner_is_None e = false) result.
Proof.
  unfold get_inputs.
  assert (Forall (λ e, owner_is_None e = false) (@nil PyObj)) as Hnil by done.
  revert Hnil. generalize (@nil PyObj) as inputs.
  induction (models self) as [|m ms IH]; intros inputs Hin; simpl.
  - by intros [= <-].
  - destruct (get_inputs_model inputs (m_get_inputs m)) as [inputs'|] eqn:Hm;
      simpl; [|done].
    apply IH. by eapply get_inputs_model_owned.
Qed.

Lemma root_inputs_roots (ms : list Model) :
  Forall (λ e, owner_is_None e = true) (root_inputs ms).
Proof.
  unfold root_inputs. apply Forall_forall. intros e He.
  apply list_elem_of_bind in He as (m & He & _).
  apply list_elem_of_filter in He as [He _].
  by apply andb_prop in He as [_ He].
Qed.

(** As soon as the pipeline has a root input, [get_inputs] does not
    return the list of root inputs. *)
Lemma get_inputs_not_root_inputs self :
  root_inputs (models self) ≠ [] →
  get_inputs self ≠ Ok (root_inputs (models self)).
Proof.
  intros Hne Heq. apply get_inputs_owned in Heq.
  pose proof (root_inputs_roots (models self)) as Hroots.
  destruct (root_inputs (models self)) as [|e es]; [done|].
  apply Forall_cons_1 in Heq as [He _]. apply Forall_cons_1 in Hroots as [He' _].
  congruence.
Qed.

End Inputs.

(** C1 at the two-unit pipeline of the specification: U1 has the leaf
    matrix [x] as input and U2 is wired to U1's output [h].  The root
    inputs are [[x]], but [inputs.extend(x)] iterates over [x] and Theano
    raises [TypeError]; [get_inputs()] returns nothing. *)
Theorem get_inputs_two_units_raises :
  root_inputs [unit1; unit2] = [var_x] ∧
  get_inputs (add (add (@init unit) unit1) unit2) = Raise TypeError.
Proof. split; reflexivity. Qed.

(** The other shapes of a leaf: a vector of unknown length makes
    [extend] raise [ValueError]; of a vector that is broadcastable, hence
    of length one, the scalar [v[0]] is added, not the vector. *)
Example get_inputs_leaf_vector :
  let v := TensorVariable "v" [false] None in
  get_inputs (add (@init unit)
                {| m_get_inputs := [v]; m_get_outputs := var_h;
                   m_get_updates := None; m_get_train_cost := PyObject "cost";
                   m_get_params := [] |})
  = Raise ValueError.
Proof. reflexivity. Qed.

Example get_inputs_leaf_broadcastable :
  let v := TensorVariable "v" [true] None in
  get_inputs (add (@init unit)
                {| m_get_inputs := [v]; m_get_outputs := var_h;
                   m_get_updates := None; m_get_train_cost := PyObject "cost";
                   m_get_params := [] |})
  = Ok [subtensor v 0].
Proof. reflexivity. Qed.

(** ** Update rules *)

Section Updates.
Context {Fn : Type}.
Implicit Types (self : Prototype Fn) (w : World) (ms pre post : list Model).
Implicit Types (h : Heap) (acc : Dict).

Lemma truthy_updates_of h (model : Model) :
  truthy h (m_get_updates model) = bool_decide (updates_of h model ≠ ∅).
Proof.
  unfold truthy, updates_of. destruct (m_get_updates model); [done|].
  by rewrite bool_decide_false by (intros H; by apply H).
Qed.

Lemma truthy_lookup h (l : nat) :
  truthy h (Some l) = true → h !! l = Some (h !!! l).
Proof.
  simpl. intros Ht%bool_decide_eq_true. rewrite lookup_total_alt in Ht |- *.
  destruct (h !! l); [done|]. by destruct Ht.
Qed.

(** Before any unit contributed, units without entries are skipped. *)
Lemma get_updates_loop_skip pre ms h :
  Forall (λ m, updates_of h m = ∅) pre →
  get_updates_loop None (pre ++ ms) h = get_updates_loop None ms h.
Proof.
  induction 1 as [|m pre Hm _ IH]; simpl; [done|].
  rewrite truthy_updates_of, bool_decide_false by (by intros H; apply H).
  done.
Qed.

(** Once [updates] refers to the non-empty object [l], the loop keeps
    that reference and writes every further unit's entries into it. *)
Lemma get_updates_loop_merge h (l : nat) ms acc :
  acc ≠ ∅ →
  get_updates_loop (Some l) ms (<[l := acc]> h)
  = (Some l, <[l := foldl (merge_step h l) acc ms]> h).
Proof.
  revert acc. induction ms as [|m ms IH]; intros acc Hacc; simpl; [done|].
  rewrite lookup_total_insert_eq, (bool_decide_true _ Hacc). simpl.
  unfold merge_step at 2. destruct (m_get_updates m) as [lc|]; simpl; [|by apply IH].
  destruct (decide (lc = l)) as [->|Hne].
  - rewrite lookup_total_insert_eq, (bool_decide_true _ Hacc).
    rewrite (idemp (∪) acc), insert_insert_eq. by apply IH.
  - rewrite lookup_total_insert_ne by done.
    destruct (decide (h !!! lc = (∅ : Dict))) as [He|Hn].
    + rewrite bool_decide_false by (by intros H; apply H).
      rewrite He, (left_id ∅ (∪) acc). by apply IH.
    + rewrite (bool_decide_true _ Hn), insert_insert_eq. apply IH.
      by apply map_positive_l_alt.
Qed.

Lemma get_updates_none self w :
  Forall (λ m, updates_of (heap w) m = ∅) (models self) →
  get_updates self w = (None, w).
Proof.
  intros Hall. unfold get_updates.
  rewrite <-(app_nil_r (models self)), get_updates_loop_skip by done.
  simpl. by destruct w.
Qed.

(** The run of [get_updates] when [m] is the first unit with entries. *)
Lemma get_updates_first self w pre (m : Model) post (l : nat) :
  models self = pre ++ m :: post →
  Forall (λ m', updates_of (heap w) m' = ∅) pre →
  m_get_updates m = Some l → heap w !!! l ≠ (∅ : Dict) →
  get_updates self w
  = (Some l,
     set_heap (<[l := foldl (merge_step (heap w) l) (heap w !!! l) post]> (heap w)) w).
Proof.
  intros Hm Hpre Hl Hne. unfold get_updates.
  rewrite Hm, get_updates_loop_skip by done. simpl.
  rewrite Hl. simpl. rewrite (bool_decide_true _ Hne).
  rewrite <-(insert_id (heap w) l (heap w !!! l)) at 1
    by (by apply truthy_lookup, bool_decide_eq_true).
  by rewrite get_updates_loop_merge.
Qed.

Lemma merge_step_keeps_keys h (l : nat) ms acc (k : nat) :
  is_Some (acc !! k) → is_Some (foldl (merge_step h l) acc ms !! k).
Proof.
  revert acc. induction ms as [|m ms IH]; intros acc Hk; simpl; [done|].
  apply IH. unfold merge_step. destruct (m_get_updates m) as [lc|]; [|done].
  case_decide; [done|]. destruct Hk as [v Hk].
  destruct ((h !!! lc : Dict) !! k) as [v'|] eqn:Hlc.
  - exists v'. by apply lookup_union_Some_l.
  - exists v. rewrite lookup_union_r; done.
Qed.

Lemma merge_step_keeps_key h (l : nat) acc (m : Model) (k : nat) :
  is_Some (acc !! k) → is_Some (merge_step h l acc m !! k).
Proof.
  intros Hk. apply (merge_step_keeps_keys h l [m] acc k Hk).
Qed.

(** Every key of a later unit is bound in [l] afterwards. *)
Lemma merge_step_adds_keys h (l : nat) ms acc (m : Model) (k : nat) :
  m ∈ ms →
  (∀ k', is_Some ((h !!! l : Dict) !! k') → is_Some (acc !! k')) →
  is_Some (updates_of h m !! k) →
  is_Some (foldl (merge_step h l) acc ms !! k).
Proof.
  revert acc. induction ms as [|m' ms IH]; intros acc Hin Hacc Hk.
  - by apply elem_of_nil in Hin.
  - simpl. apply elem_of_cons in Hin as [<-|Hin].
    + apply merge_step_keeps_keys. unfold merge_step, updates_of in *.
      destruct (m_get_updates m) as [lc|].
      * case_decide as Hlc; [subst lc; by apply Hacc|].
        destruct Hk as [v Hk]. exists v. by apply lookup_union_Some_l.
      * destruct Hk as [v Hk]. by rewrite lookup_empty in Hk.
    + apply IH; [done| |done].
      intros k' Hk'. by apply merge_step_keeps_key, Hacc.
Qed.

(** The entries of the last unit are in [l] with their own values. *)
Lemma merge_step_last h (l lc : nat) ms acc (m : Model) (k : nat) (v : PyObj) :
  m_get_updates m = Some lc → lc ≠ l →
  (h !!! lc : Dict) !! k = Some v →
  foldl (merge_step h l) acc (ms ++ [m]) !! k = Some v.
Proof.
  intros Hm Hne Hk. rewrite foldl_snoc. unfold merge_step at 1.
  rewrite Hm, decide_False by done. by apply lookup_union_Some_l.
Qed.

(** When no later unit hands out [l] again, the writes into [l] are the
    merge of the units' mappings as they were at the start. *)
Lemma merge_step_no_alias h (l : nat) ms acc :
  l ∉ omap m_get_updates ms →
  foldl (merge_step h l) acc ms
  = foldl (λ acc model, updates_of h model ∪ acc) acc ms.
Proof.
  revert acc. induction ms as [|m ms IH]; intros acc Hl; simpl; [done|].
  simpl in Hl. unfold merge_step at 2, updates_of at 2.
  destruct (m_get_updates m) as [lc|].
  - apply not_elem_of_cons in Hl as [Hne Hl].
    rewrite decide_False by done. by apply IH.
  - rewrite (left_id ∅ (∪) acc). by apply IH.
Qed.

Lemma merged_updates_skip h pre ms acc :
  Forall (λ m, updates_of h m = ∅) pre →
  foldl (λ acc model, updates_of h model ∪ acc) acc (pre ++ ms)
  = foldl (λ acc model, updates_of h model ∪ acc) acc ms.
Proof.
  induction 1 as [|m pre Hm _ IH]; simpl; [done|].
  by rewrite Hm, (left_id ∅ (∪) acc).
Qed.

(** The merge, key by key: a key has the value that the last unit
    binding it gives. *)
Lemma merged_updates_lookup h ms (k : nat) (v : PyObj) :
  merged_updates h ms !! k = Some v ↔
  ∃ (i : nat) m, ms !! i = Some m ∧ updates_of h m !! k = Some v ∧
    ∀ (j : nat) m', (i < j)%nat → ms !! j = Some m' → updates_of h m' !! k = None.
Proof.
  unfold merged_updates.
  induction ms as [|m ms IH] using rev_ind.
  - simpl. rewrite lookup_empty. split; [done|]. by intros (i & m & Hi & _).
  - rewrite foldl_snoc, lookup_union_Some_raw, IH. split.
    + intros [Hm|[Hm (i & mi & Hi & Hv & Hlater)]].
      * exists (length ms), m. split; [by rewrite list_lookup_middle|].
        split; [done|]. intros j m' Hj Hm'.
        apply lookup_lt_Some in Hm'. rewrite length_app in Hm'. simpl in Hm'. lia.
      * exists i, mi. split; [by apply lookup_app_l_Some|]. split; [done|].
        intros j m' Hj [[_ Hm']|[_ <-]]%lookup_snoc_Some; [by eapply Hlater|done].
    + intros (i & mi & [[Hlt Hi]|[-> <-]]%lookup_snoc_Some & Hv & Hlater).
      * right. split.
        -- apply (Hlater (length ms)); [done|]. by rewrite list_lookup_middle.
        -- exists i, mi. split; [done|]. split; [done|].
           intros j m' Hj Hm'. apply (Hlater j); [done|].
           by apply lookup_app_l_Some.
      * by left.
Qed.

Lemma Exists_first_split (P : Model → Prop) `{∀ m, Decision (P m)} ms :
  Exists P ms →
  ∃ pre m post, ms = pre ++ m :: post ∧ Forall (λ m', ¬ P m') pre ∧ P m.
Proof.
  induction 1 as [m ms Hm|m ms _ (pre & m' & post & -> & Hpre & Hm')].
  - exists [], m, ms. by repeat split.
  - destruct (decide (P m)) as [Hm|Hm].
    + exists [], m, (pre ++ m' :: post). by repeat split.
    + exists (m :: pre), m', post. repeat split; [|done]. by constructor.
Qed.

(** C2, as amended: when no unit has entries, [get_updates()] returns
    [None] and leaves the world alone.  When [m] is the first unit with
    entries (there may be one, two or more such units) and the dict object
    [l] that it hands out is not handed out again by a later unit, the
    call returns a dict that binds every key to the value given by the
    last unit, in pipeline order, that binds it: the merge in which later
    units override earlier ones.  Every pipeline in which some unit has
    entries has such a first unit. *)
Theorem get_updates_merged self w :
  (Forall (λ m, updates_of (heap w) m = ∅) (models self) →
   get_updates self w = (None, w)) ∧
  (∀ pre (m : Model) post (l : nat),
     models self = pre ++ m :: post →
     Forall (λ m', updates_of (heap w) m' = ∅) pre →
     m_get_updates m = Some l → heap w !!! l ≠ (∅ : Dict) →
     l ∉ omap m_get_updates post →
     (get_updates self w).1 = Some l ∧
     (heap (get_updates self w).2 !!! l : Dict)
       = merged_updates (heap w) (models self) ∧
     ∀ (k : nat) (v : PyObj),
       (heap (get_updates self w).2 !!! l : Dict) !! k = Some v ↔
       ∃ (i : nat) m',
         models self !! i = Some m' ∧ updates_of (heap w) m' !! k = Some v ∧
         ∀ (j : nat) m'', (i < j)%nat → models self !! j = Some m'' →
                          updates_of (heap w) m'' !! k = None) ∧
  (Exists (λ m, updates_of (heap w) m ≠ ∅) (models self) →
   ∃ pre (m : Model) post (l : nat),
     models self = pre ++ m :: post ∧
     Forall (λ m', updates_of (heap w) m' = ∅) pre ∧
     m_get_updates m = Some l ∧ heap w !!! l ≠ (∅ : Dict)).
Proof.
  split; [apply get_updates_none|]. split.
  - intros pre m post l Hms Hpre Hl Hm Hfresh.
    rewrite (get_updates_first self w pre m post l Hms Hpre Hl Hm). simpl.
    assert (foldl (merge_step (heap w) l) (heap w !!! l) post
            = merged_updates (heap w) (models self)) as Heq.
    { rewrite merge_step_no_alias by done.
      unfold merged_updates. rewrite Hms, merged_updates_skip by done. simpl.
      unfold updates_of at 3. by rewrite Hl, (right_id ∅ (∪)). }
    split; [done|]. rewrite lookup_total_insert_eq, Heq. split; [done|].
    intros k v. apply merged_updates_lookup.
  - intros Hex.
    apply Exists_first_split in Hex as (pre & m & post & Hms & Hpre & Hm);
      [|intros; apply _].
    unfold updates_of in Hm at 1.
    destruct (m_get_updates m) as [l|] eqn:Hl; [|done].
    exists pre, m, post, l. split; [done|]. split; [|done].
    eapply Forall_impl; [exact Hpre|]. intros m' Hm'. simpl in Hm'.
    by destruct (decide (updates_of (heap w) m' = ∅)).
Qed.

(** C9: when [m] is the first unit with entries and hands out the dict
    object [l], [get_updates()] returns that very object.  The entries of
    the later units have been written into it: it holds the result of the
    in-place merges, every key of a later unit is bound in it, the last
    unit's entries are in it with their values, and so it differs from
    what it held before as soon as a later unit brings a key it lacked.
    No other dict object and no log record is touched. *)
Theorem get_updates_mutates_first self w pre (m : Model) post (l : nat) :
  models self = pre ++ m :: post →
  Forall (λ m', updates_of (heap w) m' = ∅) pre →
  m_get_updates m = Some l → heap w !!! l ≠ (∅ : Dict) →
  let w' := (get_updates self w).2 in
  (get_updates self w).1 = Some l ∧
  (heap w' !!! l : Dict)
    = foldl (merge_step (heap w) l) (heap w !!! l) post ∧
  (∀ l' : nat, l' ≠ l → heap w' !! l' = heap w !! l') ∧
  logged w' = logged w ∧
  (∀ m' (k : nat), m' ∈ post → is_Some (updates_of (heap w) m' !! k) →
     is_Some ((heap w' !!! l : Dict) !! k)) ∧
  (∀ m' (lc k : nat) (v : PyObj),
     last post = Some m' → m_get_updates m' = Some lc → lc ≠ l →
     (heap w !!! lc : Dict) !! k = Some v →
     (heap w' !!! l : Dict) !! k = Some v) ∧
  (∀ m' (k : nat), m' ∈ post → is_Some (updates_of (heap w) m' !! k) →
     (heap w !!! l : Dict) !! k = None →
     (heap w' !!! l : Dict) ≠ heap w !!! l).
Proof.
  intros Hms Hpre Hl Hne w'. unfold w'.
  rewrite (get_updates_first self w pre m post l Hms Hpre Hl Hne). simpl.
  rewrite lookup_total_insert_eq.
  assert (∀ m' (k : nat), m' ∈ post → is_Some (updates_of (heap w) m' !! k) →
            is_Some (foldl (merge_step (heap w) l) (heap w !!! l) post !! k))
    as Hkeys.
  { intros m' k Hin Hk. by eapply merge_step_adds_keys. }
  repeat split; try done.
  - intros l' Hl'. by rewrite lookup_insert_ne.
  - intros m' lc k v Hlast Hm' Hlc Hk.
    destruct post as [|m0 post0 _] using rev_ind; [done|].
    rewrite last_snoc in Hlast. injection Hlast as ->.
    by eapply merge_step_last.
  - intros m' k Hin Hk Hnone Heq.
    destruct (Hkeys m' k Hin Hk) as [v Hv]. rewrite Heq in Hv. congruence.
Qed.

End Updates.

(** The example of the specification: an earlier unit with [{a: x}], a
    later one with [{a: y}]; and a pipeline of units without updates. *)
Lemma get_updates_merged_witness :
  get_updates (add (add (@init unit) unit3) unit3) world0 = (None, world0) ∧
  (get_updates (add (add (@init unit) unit1) unit2) world0).1 = Some 1%nat ∧
  (heap (get_updates (add (add (@init unit) unit1) unit2) world0).2 !!! 1%nat
     : Dict) = merged_updates (heap world0) [unit1; unit2] ∧
  (heap (get_updates (add (add (@init unit) unit1) unit2) world0).2 !!! 1%nat
     : Dict) !! 7%nat = Some var_y.
Proof.
  split.
  - apply (proj1 (get_updates_merged (add (add (@init unit) unit3) unit3) world0)).
    repeat constructor.
  - destruct (proj1 (proj2 (get_updates_merged
                              (add (add (@init unit) unit1) unit2) world0))
                [] unit1 [unit2] 1%nat)
      as (Hl & Heq & Hkeys).
    + reflexivity.
    + constructor.
    + reflexivity.
    + vm_compute. discriminate.
    + simpl. rewrite list_elem_of_singleton. discriminate.
    + split; [exact Hl|]. split; [exact Heq|]. apply Hkeys.
      exists 1%nat, unit2. split; [reflexivity|]. split; [reflexivity|].
      intros j m' Hj Hm'. simpl in Hm'.
      destruct j as [|[|j]]; [lia|lia|discriminate].
Defined.

(** C2, as stated, fails when a later unit hands out the dict object of
    the first unit with entries once more: with the units' dicts
    [{a: x}], [{a: y}] and the first dict again, the merge in pipeline
    order maps [a] to [x], but [get_updates()] returns the first dict with
    [a] mapped to [y], the repeated dict having been overwritten in place
    before it is read again. *)
Lemma get_updates_merged_counterexample :
  let self := add (add (add (@init unit) unit1) unit2) unit1 in
  (m_get_updates <$> models self) = [Some 1%nat; Some 2%nat; Some 1%nat] ∧
  Forall (λ m, updates_of (heap world0) m ≠ ∅) (models self) ∧
  (get_updates self world0).1 = Some 1%nat ∧
  (heap (get_updates self world0).2 !!! 1%nat : Dict) !! 7%nat = Some var_y ∧
  merged_updates (heap world0) (models self) !! 7%nat = Some var_x ∧
  (heap (get_updates self world0).2 !!! 1%nat : Dict)
    ≠ merged_updates (heap world0) (models self).
Proof.
  split; [reflexivity|]. split.
  - repeat constructor; vm_compute; discriminate.
  - split; [reflexivity|]. split; [reflexivity|]. split; [reflexivity|].
    intros Heq. apply (f_equal (λ d : Dict, d !! 7%nat)) in Heq.
    vm_compute in Heq. discriminate.
Qed.

Lemma get_updates_mutates_first_witness :
  (get_updates (add (add (@init unit) unit1) unit2) world0).1 = Some 1%nat ∧
  (heap world0 !!! 1%nat : Dict) !! 7%nat = Some var_x ∧
  (heap (get_updates (add (add (@init unit) unit1) unit2) world0).2 !!! 1%nat
     : Dict) !! 7%nat = Some var_y.
Proof.
  destruct (get_updates_mutates_first
              (add (add (@init unit) unit1) unit2) world0 [] unit1 [unit2] 1%nat)
    as (Hret & _ & _ & _ & _ & Hlast & _).
  - reflexivity.
  - constructor.
  - reflexivity.
  - vm_compute. discriminate.
  - split; [exact Hret|]. split; [reflexivity|].
    apply (Hlast unit2 2%nat 7%nat var_y); [reflexivity|reflexivity|lia|reflexivity].
Defined.

(** ** The memoized predictor *)

Section Predict.
Context {Fn Value Eng : Type}.
Variable function : FunctionArgs → Eng → Result Fn * Eng.
Variable call : Fn → Value → Eng → Result Value * Eng.
Implicit Types (self : Prototype Fn) (rt : Runtime Eng) (input : Value).
Implicit Types (st : Prototype Fn * Runtime Eng) (calls : list (Call Value)).

(** With [f_predict] set, [predict] only calls it. *)
Lemma predict_cached self input rt (f : Fn) :
  f_predict self = Some f →
  predict function call self input rt
  = ((call f input (engine rt)).1, self,
     {| world := world rt; engine := (call f input (engine rt)).2;
        compiled := compiled rt |}).
Proof.
  intros Hf. unfold predict. rewrite Hf. by destruct (call f input (engine rt)).
Qed.

Lemma step_cached st (c : Call Value) (f : Fn) :
  f_predict st.1 = Some f →
  f_predict (step function call st c).1 = Some f ∧
  compiled (step function call st c).2 = compiled st.2.
Proof.
  intros Hf. destruct c as [model|input]; simpl; [done|].
  by rewrite (predict_cached _ _ _ f Hf).
Qed.

Lemma run_cached st calls (f : Fn) :
  f_predict st.1 = Some f →
  f_predict (run function call st calls).1 = Some f ∧
  compiled (run function call st calls).2 = compiled st.2.
Proof.
  revert st. induction calls as [|c calls IH]; intros st Hf; simpl; [done|].
  destruct (step_cached st c f Hf) as [Hf' Hc'].
  destruct (IH _ Hf') as [Hf'' Hc'']. split; [done|]. by rewrite <-Hc'.
Qed.

(** [get_outputs] raises nothing. *)
Lemma get_outputs_ok self (w : World) :
  ∃ outputs w1, get_outputs self w = (Ok outputs, w1).
Proof.
  unfold get_outputs. case_decide as Hlen; [|eauto].
  destruct (models_nonempty_last self) as (u & _ & _ & ->); [|simpl; eauto].
  destruct (models self); [simpl in Hlen; lia|done].
Qed.

(** X22: on a container without [f_predict], a [predict] call whose
    [get_inputs()] raises nothing and whose compilation succeeds calls
    [function] once, on what [get_inputs()], [get_outputs()] and
    [get_updates()] return at that moment, and stores the result [f] in
    [f_predict].  Whatever [add] and [predict] calls follow, [f_predict]
    stays [f], [function] is not called again, and every [predict] only
    calls [f]. *)
Theorem predict_compiles_once self input rt
    (inputs : list PyObj) (outputs : option PyObj) (w1 w2 : World)
    (updates : option nat) (f : Fn) (e1 : Eng) :
  let args := {| fa_inputs := inputs; fa_outputs := outputs;
                 fa_updates := (λ l, heap w2 !!! l) <$> updates |} in
  f_predict self = None →
  get_inputs self = Ok inputs →
  get_outputs self (world rt) = (Ok outputs, w1) →
  get_updates self w1 = (updates, w2) →
  function args (engine rt) = (Ok f, e1) →
  let st1 := step function call (self, rt) (CallPredict input) in
  f_predict st1.1 = Some f ∧
  models st1.1 = models self ∧
  compiled st1.2 = compiled rt ++ [args] ∧
  (predict function call self input rt).1.1 = (call f input e1).1 ∧
  ∀ calls,
    let st2 := run function call st1 calls in
    f_predict st2.1 = Some f ∧
    compiled st2.2 = compiled rt ++ [args] ∧
    ∀ input',
      predict function call st2.1 input' st2.2
      = ((call f input' (engine st2.2)).1, st2.1,
         {| world := world st2.2; engine := (call f input' (engine st2.2)).2;
            compiled := compiled st2.2 |}).
Proof.
  intros args Hnone Hin Hout Hupd Hfun st1.
  assert (predict function call self input rt
          = ((call f input e1).1,
             {| models := models self; f_predict := Some f |},
             {| world := log_info "Compilation done! Took "
                           (log_info "Compiling f_predict..." w2);
                engine := (call f input e1).2;
                compiled := compiled rt ++ [args] |})) as Hpredict.
  { unfold predict. rewrite Hnone, Hin, Hout, Hupd. fold args. rewrite Hfun.
    by destruct (call f input e1). }
  assert (f_predict st1.1 = Some f ∧ compiled st1.2 = compiled rt ++ [args]
          ∧ models st1.1 = models self) as (Hf1 & Hc1 & Hm1).
  { unfold st1. simpl. by rewrite Hpredict. }
  repeat split; try done.
  - by rewrite Hpredict.
  - by apply run_cached.
  - rewrite <-Hc1. by apply (run_cached st1 calls f).
  - intros input'. apply predict_cached. by apply run_cached.
Qed.

End Predict.

(** On the two-unit pipeline whose first unit reads a leaf matrix,
    [predict] does not get as far as compiling: [get_inputs] raises, and
    the container is left without [f_predict]. *)
Lemma predict_two_units_raises (input : nat) :
  let self := add (add (@init FunctionArgs) unit1) unit2 in
  let rt := {| world := world0; engine := tt; compiled := [] |} in
  predict toy_function toy_call self input rt = (Raise TypeError, self, rt).
Proof. reflexivity. Qed.

(** One unit whose graph hangs on shared variables only, a first
    [predict], one more [add], a second [predict]: one compilation, from
    the one-unit pipeline and its update rule; the function is stored
    although calling it with an argument raises. *)
Lemma predict_compiles_once_witness :
  let self := add (@init FunctionArgs) unit4 in
  let rt := {| world := world1; engine := tt; compiled := [] |} in
  let args := {| fa_inputs := []; fa_outputs := Some var_s;
                 fa_updates := Some {[ 8%nat := var_s ]} |} in
  let st1 := step toy_function arity_call (self, rt) (CallPredict 5%nat) in
  let st2 := run toy_function arity_call st1 [CallAdd unit2; CallPredict 6%nat] in
  f_predict st1.1 = Some args ∧ compiled st1.2 = [args] ∧
  f_predict st2.1 = Some args ∧ compiled st2.2 = [args] ∧
  models st2.1 = [unit4; unit2].
Proof.
  intros self rt args st1 st2.
  destruct (predict_compiles_once toy_function arity_call self 5%nat rt
              [] (Some var_s) world1 world1 (Some 3%nat) args tt)
    as (Hf1 & _ & Hc1 & _ & Hlater); try reflexivity.
  destruct (Hlater [CallAdd unit2; CallPredict 6%nat]) as (Hf & Hc & _).
  split; [exact Hf1|]. split; [exact Hc1|].
  split; [exact Hf|]. split; [exact Hc|]. reflexivity.
Defined.

(** * Further properties of the container *)

(** ** Growing the pipeline *)

Section Growing.
Context {Fn : Type}.
Implicit Types (self : Prototype Fn) (w : World) (u : Model).

(** X1: [get_train_cost()] on a non-empty pipeline is the cost of the unit at
    the last position; nothing is logged. *)
Theorem get_train_cost_last self w :
  models self ≠ [] →
  ∃ u, last (models self) = Some u ∧
       getitem self (Z.of_nat (length (models self)) - 1) = Ok u ∧
       get_train_cost self w = (Ok (Some (m_get_train_cost u)), w).
Proof.
  intros Hne. destruct (models_nonempty_last self Hne) as (u & Hl & Hget & Hlast).
  exists u. split; [done|]. split; [done|].
  unfold get_train_cost. rewrite decide_True.
  - by rewrite Hlast.
  - destruct (models self); [done|simpl; lia].
Qed.

(** X2: for every pipeline, empty or not, [add] puts the new unit at
    position [n], where [get] raised [IndexError] before, and keeps
    [f_predict]; every unit at a position [0 <= i < n] stays there. *)
Theorem add_keeps_positions self u :
  let n := Z.of_nat (length (models self)) in
  getitem (add self u) n = Ok u ∧
  getitem self n = Raise IndexError ∧
  f_predict (add self u) = f_predict self ∧
  length (models (add self u)) = S (length (models self)) ∧
  ∀ i : Z, 0 ≤ i < n → getitem (add self u) i = getitem self i.
Proof.
  intros n. split; [|split; [|split; [done|split]]].
  - apply list_getitem_nonneg; [lia|]. simpl. unfold n. rewrite Nat2Z.id.
    by rewrite list_lookup_middle.
  - apply list_getitem_out_of_range. lia.
  - simpl. rewrite length_app. simpl. lia.
  - intros i Hi.
    destruct (lookup_lt_is_Some_2 (models self) (Z.to_nat i)) as [m Hm]; [lia|].
    unfold getitem. rewrite (list_getitem_nonneg (models self) i m) by (done || lia).
    apply list_getitem_nonneg; [lia|]. simpl. by apply lookup_app_l_Some.
Qed.

(** X3: Negative positions are relative to the end, so [add] moves them:
    what [get(-k)] returned is at [-(k+1)] afterwards. *)
Theorem add_shifts_negative self u (k : Z) :
  1 ≤ k ≤ Z.of_nat (length (models self)) →
  getitem (add self u) (- (k + 1)) = getitem self (- k) ∧
  ∃ m, getitem self (- k) = Ok m.
Proof.
  intros Hk.
  destruct (lookup_lt_is_Some_2 (models self)
              (Z.to_nat (- k + Z.of_nat (length (models self))))) as [m Hm]; [lia|].
  assert (getitem self (- k) = Ok m) as Hget.
  { apply list_getitem_neg; [lia|lia|done]. }
  split; [|by exists m]. rewrite Hget.
  apply list_getitem_neg; simpl; rewrite ?length_app; simpl; [lia|lia|].
  apply lookup_app_l_Some. rewrite <-Hm. f_equal. lia.
Qed.

(** X4: Right after [add(u)], the outputs and the cost of the pipeline are
    those of [u], whatever the pipeline held, and no warning is logged. *)
Theorem add_sets_outputs_and_cost self u w :
  get_outputs (add self u) w = (Ok (Some (m_get_outputs u)), w) ∧
  get_train_cost (add self u) w = (Ok (Some (m_get_train_cost u)), w).
Proof.
  unfold get_outputs, get_train_cost. simpl.
  split; (rewrite decide_True by (rewrite length_app; simpl; lia));
    by rewrite list_getitem_last.
Qed.

(** X5: The units that iteration yields are exactly the units that [get]
    can return. *)
Theorem iter_getitem self u :
  u ∈ iter self ↔ ∃ i : Z, getitem self i = Ok u.
Proof.
  unfold iter, getitem. split.
  - intros [i Hi]%list_elem_of_lookup. exists (Z.of_nat i).
    apply list_getitem_nonneg; [lia|]. by rewrite Nat2Z.id.
  - intros [i Hi]. unfold list_getitem in Hi. cbv zeta in Hi.
    repeat case_decide; try done;
      match type of Hi with
      | match ?l !! ?j with _ => _ end = _ =>
          destruct (l !! j) as [m|] eqn:Hm; [|done];
          injection Hi as ->; by eapply list_elem_of_lookup_2
      end.
Qed.

End Growing.

Lemma get_train_cost_last_witness :
  ∃ u, last (models (add (add (@init unit) unit1) unit2)) = Some u ∧
       getitem (add (add (@init unit) unit1) unit2) (2 - 1) = Ok u ∧
       get_train_cost (add (add (@init unit) unit1) unit2) world0
       = (Ok (Some (m_get_train_cost u)), world0).
Proof.
  apply (get_train_cost_last (add (add (@init unit) unit1) unit2) world0).
  discriminate.
Defined.

Lemma add_keeps_positions_witness :
  getitem (add (@init unit) unit1) 0 = Ok unit1 ∧
  getitem (@init unit) 0 = Raise IndexError ∧
  getitem (add (add (add (@init unit) unit1) unit2) unit3) 2 = Ok unit3 ∧
  getitem (add (add (add (@init unit) unit1) unit2) unit3) 1
  = getitem (add (add (@init unit) unit1) unit2) 1.
Proof.
  split; [|split; [|split]].
  - apply (proj1 (add_keeps_positions (@init unit) unit1)).
  - apply (proj1 (proj2 (add_keeps_positions (@init unit) unit1))).
  - apply (proj1 (add_keeps_positions (add (add (@init unit) unit1) unit2) unit3)).
  - apply (proj2 (proj2 (proj2 (proj2
             (add_keeps_positions (add (add (@init unit) unit1) unit2) unit3)))) 1).
    simpl. lia.
Defined.

Lemma add_shifts_negative_witness :
  getitem (add (add (add (@init unit) unit1) unit2) unit3) (- (1 + 1))
  = getitem (add (add (@init unit) unit1) unit2) (- 1) ∧
  ∃ m, getitem (add (add (@init unit) unit1) unit2) (- 1) = Ok m.
Proof.
  apply (add_shifts_negative (add (add (@init unit) unit1) unit2) unit3 1).
  simpl. lia.
Defined.

(** ** More on the trainable parameters *)

Section ParamsMore.
Context {Fn : Type}.
Implicit Types (self : Prototype Fn) (params ps : list nat) (m : Model).

Lemma get_params_snoc self m :
  get_params (add self m) = get_params_model (get_params self) (m_get_params m).
Proof. unfold get_params. simpl. by rewrite foldl_snoc. Qed.

Lemma get_params_model_known params ps :
  ps ⊆ params → get_params_model params ps = params.
Proof.
  induction ps as [|p ps IH]; intros Hsub; simpl; [done|].
  rewrite decide_True by set_solver. apply IH. set_solver.
Qed.

Lemma get_params_model_fresh params ps :
  NoDup (params ++ ps) → get_params_model params ps = params ++ ps.
Proof.
  revert params. induction ps as [|p ps IH]; intros params Hnd; simpl.
  - by rewrite app_nil_r.
  - rewrite decide_False.
    + rewrite IH; rewrite <-app_assoc; done.
    + apply NoDup_app in Hnd as (_ & Hnd & _). intros Hp.
      apply (Hnd p Hp). by left.
Qed.

Lemma get_params_model_length params ps :
  (length (get_params_model params ps) ≤ length params + length ps)%nat.
Proof.
  revert params. induction ps as [|p ps IH]; intros params; simpl; [lia|].
  case_decide.
  - specialize (IH params). lia.
  - specialize (IH (params ++ [p])). rewrite length_app in IH. simpl in IH. lia.
Qed.

(** X6: [add] extends the parameter list at its end: the parameters listed
    before keep their positions, and the new unit's parameters are run
    through the same membership test. *)
Theorem get_params_add self m :
  get_params (add self m) = get_params_model (get_params self) (m_get_params m) ∧
  get_params self `prefix_of` get_params (add self m).
Proof.
  rewrite get_params_snoc.
  destruct (get_params_model_prefix (get_params self) (m_get_params m)) as [new ->].
  split; [done|]. by exists new.
Qed.

(** X7: Adding a unit all of whose parameters are listed already, such as a
    unit that is in the pipeline, leaves [get_params()] as it was. *)
Theorem get_params_add_known self m :
  m_get_params m ⊆ get_params self →
  get_params (add self m) = get_params self.
Proof. intros Hsub. rewrite get_params_snoc. by apply get_params_model_known. Qed.

(** X8: [get_params()] is never longer than the concatenation of the units'
    lists, and is that concatenation exactly when it has no duplicates. *)
Theorem get_params_vs_concat self :
  let all := concat (m_get_params <$> models self) in
  (length (get_params self) ≤ length all)%nat ∧
  (get_params self = all ↔ NoDup all).
Proof.
  intros all. rewrite get_params_concat. fold all. split.
  - apply (get_params_model_length [] all).
  - split.
    + intros <-. apply get_params_model_NoDup, NoDup_nil_2.
    + intros Hnd. by apply (get_params_model_fresh [] all).
Qed.

End ParamsMore.

Lemma get_params_add_known_witness :
  get_params (add (add (add (@init unit) unit1) unit2) unit1)
  = get_params (add (add (@init unit) unit1) unit2).
Proof.
  apply (get_params_add_known (add (add (@init unit) unit1) unit2) unit1).
  intros p Hp. simpl in Hp.
  repeat (apply elem_of_cons in Hp as [->|Hp];
          [apply (bool_decide_unpack _); vm_compute; exact I|]).
  by apply elem_of_nil in Hp.
Defined.

(** ** More on the update rules *)

Section UpdatesMore.
Context {Fn : Type}.
Implicit Types (self : Prototype Fn) (w : World) (ms pre post : list Model).
Implicit Types (h : Heap) (acc : Dict) (l : nat).

(** The writes of the later units amount to laying one dict over [l]. *)
Lemma merge_step_union h l post acc :
  foldl (merge_step h l) acc post = foldl (merge_step h l) ∅ post ∪ acc.
Proof.
  revert acc. induction post as [|m post IH]; intros acc; simpl.
  - by rewrite (left_id ∅ (∪) acc).
  - rewrite IH, (IH (merge_step h l ∅ m)), <-(assoc_L (∪)). f_equal.
    unfold merge_step. destruct (m_get_updates m) as [lc|].
    + case_decide; [by rewrite (left_id ∅ (∪) acc)|].
      by rewrite (right_id ∅ (∪)).
    + by rewrite (left_id ∅ (∪) acc).
Qed.

Lemma merge_step_insert h l (d : Dict) post acc :
  foldl (merge_step (<[l := d]> h) l) acc post = foldl (merge_step h l) acc post.
Proof.
  revert acc. induction post as [|m post IH]; intros acc; simpl; [done|].
  rewrite IH. f_equal. unfold merge_step. destruct (m_get_updates m) as [lc|]; [|done].
  case_decide; [done|]. by rewrite lookup_total_insert_ne.
Qed.

Lemma merge_step_nonempty h l post acc :
  acc ≠ ∅ → foldl (merge_step h l) acc post ≠ ∅.
Proof.
  intros Hacc Hempty. apply map_choose in Hacc as (k & v & Hk).
  destruct (merge_step_keeps_keys h l post acc k) as [v' Hv']; [by exists v|].
  by rewrite Hempty, lookup_empty in Hv'.
Qed.

Lemma merge_step_empty_units h l post acc :
  Forall (λ m, updates_of h m = ∅) post → h !!! l ≠ (∅ : Dict) →
  foldl (merge_step h l) acc post = acc.
Proof.
  intros Hpost Hl. revert acc.
  induction Hpost as [|m post Hm _ IH]; intros acc; simpl; [done|].
  rewrite IH. unfold merge_step, updates_of in *.
  destruct (m_get_updates m) as [lc|]; [|done].
  case_decide; [done|]. by rewrite Hm, (left_id ∅ (∪) acc).
Qed.

(** Units without entries before the first contributor do not hand out
    its dict, so a write into it leaves them without entries. *)
Lemma updates_of_insert_empty h l (d : Dict) pre :
  h !!! l ≠ (∅ : Dict) →
  Forall (λ m, updates_of h m = ∅) pre →
  Forall (λ m, updates_of (<[l := d]> h) m = ∅) pre.
Proof.
  intros Hl Hpre. eapply Forall_impl; [exact Hpre|].
  intros m. unfold updates_of. simpl.
  destruct (m_get_updates m) as [lc|]; [|done].
  intros Hm. rewrite lookup_total_insert_ne; [done|]. by intros <-.
Qed.

Lemma contributor_split w ms :
  Forall (λ m, updates_of (heap w) m = ∅) ms ∨
  ∃ pre m post (l : nat),
    ms = pre ++ m :: post ∧ Forall (λ m', updates_of (heap w) m' = ∅) pre ∧
    m_get_updates m = Some l ∧ heap w !!! l ≠ (∅ : Dict).
Proof.
  destruct (decide (Exists (λ m, updates_of (heap w) m ≠ ∅) ms)) as [Hex|Hno].
  - right.
    apply Exists_first_split in Hex as (pre & m & post & Hms & Hpre & Hm);
      [|intros; apply _].
    unfold updates_of in Hm at 1.
    destruct (m_get_updates m) as [l|] eqn:Hl; [|done].
    exists pre, m, post, l. split; [done|]. split; [|done].
    eapply Forall_impl; [exact Hpre|]. intros m' Hm'. simpl in Hm'.
    by destruct (decide (updates_of (heap w) m' = ∅)).
  - left. apply Forall_forall. intros m Hm.
    destruct (decide (updates_of (heap w) m = ∅)) as [|Hne]; [done|].
    destruct Hno. apply Exists_exists. eauto.
Qed.

(** X9: [get_updates()] returns [None] exactly when no unit has entries, and
    otherwise a dict that some unit of the pipeline handed out and that
    is not empty: an empty dict is never returned. *)
Theorem get_updates_none_or_nonempty self w :
  ((get_updates self w).1 = None ↔
   Forall (λ m, updates_of (heap w) m = ∅) (models self)) ∧
  (∀ l, (get_updates self w).1 = Some l →
        heap (get_updates self w).2 !!! l ≠ (∅ : Dict) ∧
        ∃ m, m ∈ models self ∧ m_get_updates m = Some l).
Proof.
  destruct (contributor_split w (models self))
    as [Hall|(pre & m & post & l & Hms & Hpre & Hl & Hne)].
  - rewrite get_updates_none by done. simpl. split; [done|]. by intros l.
  - rewrite (get_updates_first self w pre m post l Hms Hpre Hl Hne). simpl.
    split.
    + split; [done|]. rewrite Hms. intros Hall.
      apply Forall_app in Hall as [_ Hall]. apply Forall_cons_1 in Hall as [Hm _].
      unfold updates_of in Hm. by rewrite Hl in Hm.
    + intros l' [= <-]. rewrite lookup_total_insert_eq. split.
      * by apply merge_step_nonempty.
      * exists m. split; [|done]. rewrite Hms. set_solver.
Qed.

(** X10: When one unit alone has entries, [get_updates()] returns that unit's
    dict and writes nothing. *)
Theorem get_updates_single_contributor self w pre (m : Model) post l :
  models self = pre ++ m :: post →
  Forall (λ m', updates_of (heap w) m' = ∅) pre →
  Forall (λ m', updates_of (heap w) m' = ∅) post →
  m_get_updates m = Some l → heap w !!! l ≠ (∅ : Dict) →
  get_updates self w = (Some l, w).
Proof.
  intros Hms Hpre Hpost Hl Hne.
  rewrite (get_updates_first self w pre m post l Hms Hpre Hl Hne).
  rewrite merge_step_empty_units by done.
  rewrite insert_id by (by apply truthy_lookup, bool_decide_eq_true).
  by destruct w.
Qed.

Lemma get_updates_stable self w :
  get_updates self (get_updates self w).2 = get_updates self w.
Proof.
  destruct (contributor_split w (models self))
    as [Hall|(pre & m & post & l & Hms & Hpre & Hl & Hne)].
  - rewrite !get_updates_none; by rewrite ?get_updates_none.
  - rewrite (get_updates_first self w pre m post l Hms Hpre Hl Hne). simpl.
    set (merged := foldl (merge_step (heap w) l) (heap w !!! l) post).
    assert (merged ≠ ∅) as Hmerged by by apply merge_step_nonempty.
    rewrite (get_updates_first self _ pre m post l Hms); simpl.
    + rewrite lookup_total_insert_eq, merge_step_insert, insert_insert_eq.
      unfold set_heap. simpl. do 3 f_equal.
      unfold merged. rewrite merge_step_union.
      rewrite (merge_step_union (heap w) l post (heap w !!! l)).
      by rewrite (assoc_L (∪)), (idemp (∪) _).
    + by apply updates_of_insert_empty.
    + done.
    + by rewrite lookup_total_insert_eq.
Qed.

(** X11: A second [get_updates()] returns the same dict object and changes
    nothing any more: the merge has been written by the first call. *)
Theorem get_updates_twice self w :
  get_updates self (get_updates self w).2 = get_updates self w.
Proof. apply get_updates_stable. Qed.

End UpdatesMore.

Lemma get_updates_single_contributor_witness :
  get_updates (add (add (add (@init unit) unit3) unit1) unit3) world0
  = (Some 1%nat, world0).
Proof.
  apply (get_updates_single_contributor
           (add (add (add (@init unit) unit3) unit1) unit3) world0
           [unit3] unit1 [unit3] 1%nat).
  - reflexivity.
  - repeat constructor.
  - repeat constructor.
  - reflexivity.
  - vm_compute. discriminate.
Defined.

(** ** More on the inputs *)

Section InputsMore.
Context {Fn : Type}.
Implicit Types (self : Prototype Fn) (inputs : list PyObj) (m : Model).

Lemma tensor_iter_length_one (v : PyObj) :
  length_one_vector v = true → tensor_iter v = Ok [subtensor v 0].
Proof. by destruct v as [? [|[] []] ?|]. Qed.

Lemma tensor_iter_root_raises (v : PyObj) :
  owner_is_None v = true → length_one_vector v = false →
  ∃ e, tensor_iter v = Raise e ∧ (e = TypeError ∨ e = ValueError).
Proof.
  destruct v as [? [|[] []] []|]; try done; intros _ _;
    unfold tensor_iter; simpl; eauto.
Qed.

Lemma root_inputs_cons m (ms : list Model) :
  root_inputs (m :: ms)
  = filter (λ input, is_tensor_variable input && owner_is_None input = true)
           (m_get_inputs m) ++ root_inputs ms.
Proof. done. Qed.

Lemma get_inputs_model_length_one inputs model_inputs :
  Forall (λ v, length_one_vector v = true)
         (filter (λ input, is_tensor_variable input && owner_is_None input = true)
                 model_inputs) →
  get_inputs_model inputs model_inputs
  = Ok (inputs ++ ((λ v, subtensor v 0) <$>
          filter (λ input, is_tensor_variable input && owner_is_None input = true)
                 model_inputs)).
Proof.
  revert inputs. induction model_inputs as [|input rest IH]; intros inputs; simpl.
  - by rewrite app_nil_r.
  - rewrite filter_cons.
    destruct (is_tensor_variable input) eqn:Ht, (owner_is_None input) eqn:Ho;
      simpl; try apply IH.
    intros [Hone Hrest]%Forall_cons_1.
    rewrite tensor_iter_length_one by done. simpl.
    rewrite IH by done. by rewrite <-app_assoc.
Qed.

Lemma get_inputs_model_raises inputs model_inputs :
  Exists (λ v, length_one_vector v = false)
         (filter (λ input, is_tensor_variable input && owner_is_None input = true)
                 model_inputs) →
  ∃ e, get_inputs_model inputs model_inputs = Raise e ∧
       (e = TypeError ∨ e = ValueError).
Proof.
  revert inputs. induction model_inputs as [|input rest IH]; intros inputs; simpl.
  - by intros ?%Exists_nil.
  - rewrite filter_cons.
    destruct (is_tensor_variable input) eqn:Ht, (owner_is_None input) eqn:Ho;
      simpl; try apply IH.
    destruct (length_one_vector input) eqn:Hone.
    + intros [Hex|Hex]%Exists_cons; [congruence|].
      rewrite tensor_iter_length_one by done. simpl. by apply IH.
    + intros _. destruct (tensor_iter_root_raises input Ho Hone) as (e & -> & He).
      simpl. eauto.
Qed.

Lemma get_inputs_loop_length_one inputs (ms : list Model) :
  Forall (λ v, length_one_vector v = true) (root_inputs ms) →
  get_inputs_loop inputs ms
  = Ok (inputs ++ ((λ v, subtensor v 0) <$> root_inputs ms)).
Proof.
  revert inputs. induction ms as [|m ms IH]; intros inputs.
  - simpl. by rewrite app_nil_r.
  - rewrite root_inputs_cons. cbn [get_inputs_loop].
    intros [Hm Hms]%Forall_app.
    rewrite get_inputs_model_length_one by done. cbn [mbind Result_bind].
    rewrite IH by done. by rewrite fmap_app, <-app_assoc.
Qed.

Lemma get_inputs_loop_raises inputs (ms : list Model) :
  Exists (λ v, length_one_vector v = false) (root_inputs ms) →
  ∃ e, get_inputs_loop inputs ms = Raise e ∧ (e = TypeError ∨ e = ValueError).
Proof.
  revert inputs. induction ms as [|m ms IH]; intros inputs.
  - by intros ?%Exists_nil.
  - rewrite root_inputs_cons. cbn [get_inputs_loop].
    intros [Hm|Hms]%Exists_app.
    + destruct (get_inputs_model_raises inputs (m_get_inputs m) Hm) as (e & -> & He).
      simpl. eauto.
    + destruct (get_inputs_model inputs (m_get_inputs m)) as [inputs'|e'] eqn:Hmod;
        cbn [mbind Result_bind]; [by apply IH|].
      destruct (decide (Exists (λ v, length_one_vector v = false)
                  (filter (λ input, is_tensor_variable input
                                    && owner_is_None input = true)
                          (m_get_inputs m)))) as [Hex|Hno].
      * destruct (get_inputs_model_raises inputs (m_get_inputs m) Hex)
          as (e & He & Hor). rewrite Hmod in He. injection He as ->. eauto.
      * apply not_Exists_Forall in Hno; [|intros; apply _].
        rewrite get_inputs_model_length_one in Hmod; [done|].
        eapply Forall_impl; [exact Hno|]. intros v Hv. simpl in Hv.
        by destruct (length_one_vector v).
Qed.

Lemma get_inputs_loop_app inputs (ms1 ms2 : list Model) :
  get_inputs_loop inputs (ms1 ++ ms2)
  = get_inputs_loop inputs ms1 ≫= λ inputs', get_inputs_loop inputs' ms2.
Proof.
  revert inputs. induction ms1 as [|m ms1 IH]; intros inputs; simpl; [done|].
  destruct (get_inputs_model inputs (m_get_inputs m)); simpl; [apply IH|done].
Qed.

(** X12: When every root input of the pipeline is a vector of length one,
    [get_inputs()] returns, for each root input [v] in pipeline order, the
    scalar [v[0]]; with no root input at all it returns the empty list. *)
Theorem get_inputs_length_one self :
  Forall (λ v, length_one_vector v = true) (root_inputs (models self)) →
  get_inputs self = Ok ((λ v, subtensor v 0) <$> root_inputs (models self)).
Proof. intros Hall. unfold get_inputs. by rewrite get_inputs_loop_length_one. Qed.

(** X13: When some root input of the pipeline is not a vector of length one,
    [get_inputs()] raises [TypeError] or [ValueError] and returns no list. *)
Theorem get_inputs_raises self :
  Exists (λ v, length_one_vector v = false) (root_inputs (models self)) →
  ∃ e, get_inputs self = Raise e ∧ (e = TypeError ∨ e = ValueError).
Proof. apply get_inputs_loop_raises. Qed.

(** X14: [add] and [get_inputs()]: an exception raised for the pipeline is
    raised for every extension of it, and a list returned for it is
    extended by what the new unit's inputs give. *)
Theorem get_inputs_add self m :
  (∀ e, get_inputs self = Raise e → get_inputs (add self m) = Raise e) ∧
  (∀ inputs, get_inputs self = Ok inputs →
     get_inputs (add self m) = get_inputs_model inputs (m_get_inputs m)).
Proof.
  unfold get_inputs. simpl. rewrite get_inputs_loop_app.
  split.
  - by intros e ->.
  - intros inputs ->. simpl. by destruct (get_inputs_model inputs (m_get_inputs m)).
Qed.

End InputsMore.

Lemma get_inputs_length_one_witness :
  get_inputs (add (add (@init unit) unit3) unit3) = Ok [].
Proof.
  apply (get_inputs_length_one (add (add (@init unit) unit3) unit3)).
  vm_compute. constructor.
Defined.

Lemma get_inputs_raises_witness :
  ∃ e, get_inputs (add (add (@init unit) unit1) unit2) = Raise e ∧
       (e = TypeError ∨ e = ValueError).
Proof.
  apply (get_inputs_raises (add (add (@init unit) unit1) unit2)).
  apply Exists_cons_hd. reflexivity.
Defined.

Lemma get_inputs_add_witness :
  get_inputs (add (add (@init unit) unit1) unit3) = Raise TypeError ∧
  get_inputs (add (add (@init unit) unit3) unit3)
  = get_inputs_model [] (m_get_inputs unit3).
Proof.
  split.
  - apply (proj1 (get_inputs_add (add (@init unit) unit1) unit3)). reflexivity.
  - apply (proj2 (get_inputs_add (add (@init unit) unit3) unit3)). reflexivity.
Defined.

(** ** More on [predict] *)

Section PredictMore.
Context {Fn Value Eng : Type}.
Variable function : FunctionArgs → Eng → Result Fn * Eng.
Variable call : Fn → Value → Eng → Result Value * Eng.
Implicit Types (self : Prototype Fn) (rt : Runtime Eng) (input : Value).
Implicit Types (st : Prototype Fn * Runtime Eng) (calls : list (Call Value)).

Lemma predict_models self input rt :
  models (predict function call self input rt).1.2 = models self.
Proof.
  unfold predict. destruct (f_predict self) as [f|].
  { by destruct (call f input (engine rt)). }
  destruct (get_inputs self); [|done].
  destruct (get_outputs self (world rt)) as [[outputs|] w1]; [|done].
  destruct (get_updates self w1) as [updates w2].
  destruct (function _ (engine rt)) as [[f|] e1]; [|done].
  by destruct (call f input e1).
Qed.

Lemma predict_raises_early self input rt (e : PyErr) :
  f_predict self = None → get_inputs self = Raise e →
  predict function call self input rt = (Raise e, self, rt).
Proof. intros Hf He. unfold predict. by rewrite Hf, He. Qed.

Lemma get_outputs_any_world self (w w' : World) :
  (get_outputs self w').1 = (get_outputs self w).1 ∧
  heap (get_outputs self w).2 = heap w.
Proof. unfold get_outputs. by case_decide. Qed.

Lemma get_updates_heap_only self (w w' : World) :
  heap w' = heap w →
  (get_updates self w').1 = (get_updates self w).1 ∧
  heap (get_updates self w').2 = heap (get_updates self w).2.
Proof.
  unfold get_updates. intros ->.
  by destruct (get_updates_loop None (models self) (heap w)).
Qed.

(** X15: [predict] never changes the list of units: after any sequence of
    calls the pipeline is the old one followed by the units added. *)
Theorem run_models st calls :
  models (run function call st calls).1 = models st.1 ++ added_models calls.
Proof.
  unfold run. revert st. induction calls as [|c calls IH]; intros st.
  - simpl. by rewrite app_nil_r.
  - cbn [foldl]. rewrite IH. destruct c as [model|input]; simpl.
    + by rewrite <-app_assoc.
    + pose proof (predict_models st.1 input st.2) as Hm.
      destruct (predict function call st.1 input st.2) as [[r self'] rt'].
      simpl in *. by rewrite Hm.
Qed.

(** X16: Once [f_predict] is set, no sequence of [add] and [predict] calls
    logs anything or touches a dict of the units. *)
Theorem run_cached_world st calls (f : Fn) :
  f_predict st.1 = Some f →
  world (run function call st calls).2 = world st.2.
Proof.
  unfold run. revert st. induction calls as [|c calls IH]; intros st Hf; [done|].
  cbn [foldl]. rewrite IH.
  - destruct c as [model|input]; simpl; [done|].
    by rewrite (predict_cached function call _ _ _ f Hf).
  - by apply step_cached.
Qed.

(** X17: A pipeline for which [get_inputs()] raises cannot be predicted with,
    whatever is added to it: every [predict] raises the same exception,
    nothing is compiled, logged or written, and [f_predict] stays unset. *)
Theorem predict_blocked self rt (e : PyErr) calls :
  f_predict self = None → get_inputs self = Raise e →
  let st := run function call (self, rt) calls in
  f_predict st.1 = None ∧ st.2 = rt ∧ get_inputs st.1 = Raise e ∧
  ∀ input, predict function call st.1 input st.2 = (Raise e, st.1, rt).
Proof.
  intros Hf He. simpl.
  assert (f_predict (run function call (self, rt) calls).1 = None ∧
          (run function call (self, rt) calls).2 = rt ∧
          get_inputs (run function call (self, rt) calls).1 = Raise e)
    as (Hf' & Hrt & He').
  { unfold run. revert self Hf He.
    induction calls as [|c calls IH]; intros self Hf He; [done|].
    cbn [foldl]. destruct c as [model|input]; simpl.
    - apply IH; [done|].
      unfold get_inputs in *. simpl. by rewrite get_inputs_loop_app, He.
    - rewrite (predict_raises_early self input rt e) by done. by apply IH. }
  repeat split; try done.
  intros input. rewrite Hrt. by apply predict_raises_early.
Qed.

(** X18: A compilation that fails is not memoized: the engine's exception is
    passed on, the container is as before, and the call to [function] is
    on record.  The next [predict] compiles again, from the same
    arguments, and stores the function if the engine then accepts. *)
Theorem predict_retry self input input' rt
    (inputs : list PyObj) (outputs : option PyObj) (w1 w2 : World)
    (updates : option nat) (e : PyErr) (e1 : Eng) :
  let args := {| fa_inputs := inputs; fa_outputs := outputs;
                 fa_updates := (λ l, heap w2 !!! l) <$> updates |} in
  f_predict self = None →
  get_inputs self = Ok inputs →
  get_outputs self (world rt) = (Ok outputs, w1) →
  get_updates self w1 = (updates, w2) →
  function args (engine rt) = (Raise e, e1) →
  let r1 := predict function call self input rt in
  r1.1.1 = Raise e ∧ r1.1.2 = self ∧
  compiled r1.2 = compiled rt ++ [args] ∧ engine r1.2 = e1 ∧
  ∀ (f : Fn) (e2 : Eng),
    function args e1 = (Ok f, e2) →
    let st := step function call (self, r1.2) (CallPredict input') in
    f_predict st.1 = Some f ∧ compiled st.2 = compiled rt ++ [args; args].
Proof.
  intros args Hnone Hin Hout Hupd Hfun r1.
  assert (r1 = (Raise e, self,
                {| world := log_info "Compiling f_predict..." w2; engine := e1;
                   compiled := compiled rt ++ [args] |})) as ->.
  { unfold r1, predict. rewrite Hnone, Hin, Hout, Hupd. fold args. by rewrite Hfun. }
  simpl. do 4 (split; [done|]).
  intros f e2 Hfun2. unfold predict. rewrite Hnone, Hin. simpl.
  destruct (get_outputs_any_world self (world rt)
              (log_info "Compiling f_predict..." w2)) as [Houts _].
  destruct (get_outputs_any_world self (log_info "Compiling f_predict..." w2)
              (world rt)) as [_ Hheap].
  destruct (get_outputs self (log_info "Compiling f_predict..." w2))
    as [outs' w1'] eqn:Hout'.
  rewrite Hout in Houts. simpl in Houts, Hheap. subst outs'.
  pose proof (get_updates_stable self w1) as Hstable. rewrite Hupd in Hstable.
  simpl in Hstable.
  destruct (get_updates_heap_only self w2 w1' Hheap) as [Hu Hh].
  rewrite Hstable in Hu, Hh. simpl in Hu, Hh.
  destruct (get_updates self w1') as [updates' w2'] eqn:Hupd'.
  simpl in Hu, Hh. subst updates'. rewrite Hh. fold args. rewrite Hfun2.
  destruct (call f input' e2). simpl. by rewrite <-app_assoc.
Qed.

End PredictMore.

Lemma run_cached_world_witness :
  world (run toy_function toy_call
           (step toy_function toy_call
              (add (@init FunctionArgs) unit3,
               {| world := world0; engine := tt; compiled := [] |})
              (CallPredict 5%nat))
           [CallAdd unit1; CallPredict 6%nat]).2
  = log_info "Compilation done! Took " (log_info "Compiling f_predict..." world0).
Proof.
  apply (run_cached_world toy_function toy_call
           (step toy_function toy_call
              (add (@init FunctionArgs) unit3,
               {| world := world0; engine := tt; compiled := [] |})
              (CallPredict 5%nat))
           [CallAdd unit1; CallPredict 6%nat]
           {| fa_inputs := []; fa_outputs := Some var_y; fa_updates := None |}).
  reflexivity.
Defined.

Lemma predict_blocked_witness :
  let rt := {| world := world0; engine := tt; compiled := [] |} in
  let st := run toy_function toy_call (add (@init FunctionArgs) unit1, rt)
              [CallPredict 1%nat; CallAdd unit3; CallPredict 2%nat] in
  f_predict st.1 = None ∧ st.2 = rt ∧ get_inputs st.1 = Raise TypeError ∧
  ∀ input, predict toy_function toy_call st.1 input st.2
           = (Raise TypeError, st.1, rt).
Proof.
  intros rt.
  apply (predict_blocked toy_function toy_call (add (@init FunctionArgs) unit1) rt
           TypeError [CallPredict 1%nat; CallAdd unit3; CallPredict 2%nat]);
    reflexivity.
Defined.

Lemma predict_retry_witness :
  let self := add (@init FunctionArgs) unit3 in
  let rt := {| world := world0; engine := O; compiled := [] |} in
  let args := {| fa_inputs := []; fa_outputs := Some var_y; fa_updates := None |} in
  let r1 := predict flaky_function flaky_call self 5%nat rt in
  r1.1.1 = Raise (EngineError "compilation failed") ∧ r1.1.2 = self ∧
  compiled r1.2 = [args] ∧
  let st := step flaky_function flaky_call (self, r1.2) (CallPredict 6%nat) in
  f_predict st.1 = Some args ∧ compiled st.2 = [args; args].
Proof.
  intros self rt args r1.
  destruct (predict_retry flaky_function flaky_call self 5%nat 6%nat rt
              [] (Some var_y) world0 world0 None
              (EngineError "compilation failed") 1%nat)
    as (Hr & Hs & Hc & _ & Hnext); try reflexivity.
  split; [exact Hr|]. split; [exact Hs|]. split; [exact Hc|].
  apply (Hnext args 2%nat). reflexivity.
Defined.

(** ** Decay parameters and learning-rate scalers *)

Section AggregatesMore.
Context {Fn DecayFunction Scale : Type}.
Variable m_get_decay_params : Model → list DecayFunction.
Variable m_get_lr_scalers : Model → gmap nat Scale.
Implicit Types (self : Prototype Fn) (m : Model).

Lemma foldl_extend (acc : list DecayFunction) (ms : list Model) :
  foldl (λ decay_params model, decay_params ++ m_get_decay_params model) acc ms
  = acc ++ concat (m_get_decay_params <$> ms).
Proof.
  revert acc. induction ms as [|m ms IH]; intros acc; simpl.
  - by rewrite app_nil_r.
  - by rewrite IH, <-app_assoc.
Qed.

(** X19: [get_decay_params()] is the concatenation of the units' lists in
    pipeline order, duplicates included; [add] appends the new unit's
    list, and the empty pipeline gives the empty list. *)
Theorem get_decay_params_concat self m :
  get_decay_params m_get_decay_params self
  = concat (m_get_decay_params <$> models self) ∧
  length (get_decay_params m_get_decay_params self)
  = sum_list (length ∘ m_get_decay_params <$> models self) ∧
  get_decay_params m_get_decay_params (add self m)
  = get_decay_params m_get_decay_params self ++ m_get_decay_params m ∧
  get_decay_params m_get_decay_params (@init Fn) = [].
Proof.
  unfold get_decay_params. rewrite !foldl_extend. simpl.
  split; [done|]. split; [|split; [|done]].
  - by rewrite length_concat, <-list_fmap_compose.
  - by rewrite fmap_app, concat_app; simpl; rewrite app_nil_r.
Qed.

(** X20: [get_lr_scalers()] gives a parameter the factor of the last unit, in
    pipeline order, that scales it, and no factor when no unit does. *)
Theorem get_lr_scalers_lookup self (k : nat) (v : Scale) :
  get_lr_scalers m_get_lr_scalers self !! k = Some v ↔
  ∃ (i : nat) m, models self !! i = Some m ∧ m_get_lr_scalers m !! k = Some v ∧
    ∀ (j : nat) m', (i < j)%nat → models self !! j = Some m' →
                    m_get_lr_scalers m' !! k = None.
Proof.
  unfold get_lr_scalers.
  induction (models self) as [|m ms IH] using rev_ind.
  - simpl. rewrite lookup_empty. split; [done|]. by intros (i & m & Hi & _).
  - rewrite foldl_snoc, lookup_union_Some_raw, IH. split.
    + intros [Hm|[Hm (i & mi & Hi & Hv & Hlater)]].
      * exists (length ms), m. split; [by rewrite list_lookup_middle|].
        split; [done|]. intros j m' Hj Hm'.
        apply lookup_lt_Some in Hm'. rewrite length_app in Hm'. simpl in Hm'. lia.
      * exists i, mi. split; [by apply lookup_app_l_Some|]. split; [done|].
        intros j m' Hj [[_ Hm']|[_ <-]]%lookup_snoc_Some; [by eapply Hlater|done].
    + intros (i & mi & [[Hlt Hi]|[-> <-]]%lookup_snoc_Some & Hv & Hlater).
      * right. split.
        -- apply (Hlater (length ms)); [done|]. by rewrite list_lookup_middle.
        -- exists i, mi. split; [done|]. split; [done|].
           intros j m' Hj Hm'. apply (Hlater j); [done|].
           by apply lookup_app_l_Some.
      * by left.
Qed.

(** X21: [add] and [get_lr_scalers()]: the new unit's factors are laid over
    the old ones, which stay for every parameter the new unit does not
    scale; the empty pipeline gives the empty dict, not [None]. *)
Theorem get_lr_scalers_add self m :
  get_lr_scalers m_get_lr_scalers (add self m)
  = m_get_lr_scalers m ∪ get_lr_scalers m_get_lr_scalers self ∧
  (∀ k : nat, m_get_lr_scalers m !! k = None →
     get_lr_scalers m_get_lr_scalers (add self m) !! k
     = get_lr_scalers m_get_lr_scalers self !! k) ∧
  (∀ (k : nat) v, m_get_lr_scalers m !! k = Some v →
     get_lr_scalers m_get_lr_scalers (add self m) !! k = Some v) ∧
  get_lr_scalers m_get_lr_scalers (@init Fn) = ∅.
Proof.
  unfold get_lr_scalers. simpl. rewrite foldl_snoc.
  split; [done|]. split; [|split; [|done]].
  - intros k Hk. by rewrite lookup_union_r.
  - intros k v Hk. by apply lookup_union_Some_l.
Qed.

End AggregatesMore.

Lemma get_lr_scalers_add_witness :
  get_lr_scalers example_lr_scalers (add (add (@init unit) unit1) unit2) !! 10%nat
  = get_lr_scalers example_lr_scalers (add (@init unit) unit1) !! 10%nat ∧
  get_lr_scalers example_lr_scalers (add (add (@init unit) unit1) unit2) !! 12%nat
  = Some 2%nat.
Proof.
  split.
  - apply (proj1 (proj2 (get_lr_scalers_add example_lr_scalers
                           (add (@init unit) unit1) unit2))).
    reflexivity.
  - apply (proj1 (proj2 (proj2 (get_lr_scalers_add example_lr_scalers
                                  (add (@init unit) unit1) unit2)))).
    reflexivity.
Defined.

Lemma get_updates_none_or_nonempty_witness :
  (get_updates (add (add (@init unit) unit3) unit3) world0).1 = None ∧
  heap (get_updates (add (add (@init unit) unit1) unit2) world0).2 !!! 1%nat
    ≠ (∅ : Dict) ∧
  ∃ m, m ∈ models (add (add (@init unit) unit1) unit2) ∧
       m_get_updates m = Some 1%nat.
Proof.
  split.
  - apply (proj1 (get_updates_none_or_nonempty
                    (add (add (@init unit) unit3) unit3) world0)).
    repeat constructor.
  - apply (proj2 (get_updates_none_or_nonempty
                    (add (add (@init unit) unit1) unit2) world0) 1%nat).
    reflexivity.
Defined.

(** ** [predict] on the two-unit pipeline *)

Section PredictTwoUnits.
Context {Fn Value Eng : Type}.
Variable function : FunctionArgs → Eng → Result Fn * Eng.
Variable call : Fn → Value → Eng → Result Value * Eng.
Implicit Types (self : Prototype Fn) (rt : Runtime Eng).
Implicit Types (calls : list (Call Value)).

Lemma run_get_inputs_raises self rt (e : PyErr) calls :
  f_predict self = None → get_inputs self = Raise e →
  f_predict (run function call (self, rt) calls).1 = None ∧
  (run function call (self, rt) calls).2 = rt ∧
  get_inputs (run function call (self, rt) calls).1 = Raise e.
Proof.
  unfold run. revert self.
  induction calls as [|c calls IH]; intros self Hf He; [done|].
  cbn [foldl]. destruct c as [model|input]; simpl.
  - apply IH; [done|].
    unfold get_inputs in *. simpl. by rewrite get_inputs_loop_app, He.
  - rewrite (predict_raises_early function call self input rt e) by done.
    by apply IH.
Qed.

(** C3 at the two-unit pipeline of the specification (U1 reads the leaf
    matrix [x], U2 is wired to U1's output), with any engine: the first
    [predict] builds nothing, and neither does any later one, whatever is
    added in between.  [get_inputs()] raises [TypeError] before [function]
    is reached, so every [predict] raises, [function] is never called and
    [f_predict] is never stored. *)
Theorem predict_two_units_never_builds rt calls :
  let self := add (add (@init Fn) unit1) unit2 in
  let st := run function call (self, rt) calls in
  root_inputs (models self) = [var_x] ∧
  get_inputs self = Raise TypeError ∧
  (∀ input, predict function call self input rt = (Raise TypeError, self, rt)) ∧
  f_predict st.1 = None ∧
  compiled st.2 = compiled rt ∧
  (∀ input, predict function call st.1 input st.2 = (Raise TypeError, st.1, st.2)).
Proof.
  intros self st.
  assert (get_inputs self = Raise TypeError) as He by reflexivity.
  destruct (run_get_inputs_raises self rt TypeError calls eq_refl He)
    as (Hf & Hrt & He').
  fold st in Hf, Hrt, He'.
  split; [reflexivity|]. split; [done|]. split.
  - intros input. by apply predict_raises_early.
  - split; [done|]. split; [by rewrite Hrt|].
    intros input. by apply predict_raises_early.
Qed.

End PredictTwoUnits.
